(** * Session coordination layer of the Resistance game server

    A shallow embedding of the server's service functions ([createGame],
    [joinGame], [authUser], [getGameStatus], [changeName], [removePlayer]),
    of the idle-game sweep started by [runApp] and of the socket handlers
    that call them, over an explicit model of the MongoDB store.

    Conventions.
    - The store is threaded explicitly: every service function maps a store
      to an [outcome] and the store it leaves behind, also when it throws,
      since a function may write before it throws.
    - A game code is a [Z]: [parseInt(gameCode)] and ['game-' + gameCode]
      are both keyed by that number (codes are the numbers [createGame]
      hands out).
    - A document of the [players] collection is an untyped field map, as in
      MongoDB; the [games] registry holds [{code}] documents only and is a
      list of codes; a [status] document is a record of its two fields.
    - The 32 random bytes drawn by [joinGame] and the candidate codes drawn
      by [createGame] are arguments. *)

From stdpp Require Import gmap strings list fin_maps pretty.
From Stdlib Require Import ZArith Lia Ascii.
Local Open Scope Z_scope.

(** ** SHA-256 ([crypto.createHash('sha256')], hex digest) *)

Module Sha256.

Definition w32 (x : Z) : Z := x mod 2 ^ 32.
Definition rotr (n x : Z) : Z := w32 (Z.lor (Z.shiftr x n) (Z.shiftl x (32 - n))).
Definition Ch (e f g : Z) : Z := Z.lxor (Z.land e f) (Z.land (Z.lxor e (2 ^ 32 - 1)) g).
Definition Maj (a b c : Z) : Z := Z.lxor (Z.lxor (Z.land a b) (Z.land a c)) (Z.land b c).
Definition bsig0 (a : Z) : Z := Z.lxor (Z.lxor (rotr 2 a) (rotr 13 a)) (rotr 22 a).
Definition bsig1 (e : Z) : Z := Z.lxor (Z.lxor (rotr 6 e) (rotr 11 e)) (rotr 25 e).
Definition ssig0 (x : Z) : Z := Z.lxor (Z.lxor (rotr 7 x) (rotr 18 x)) (Z.shiftr x 3).
Definition ssig1 (x : Z) : Z := Z.lxor (Z.lxor (rotr 17 x) (rotr 19 x)) (Z.shiftr x 10).

(* The round constants are the fractional parts of the cube roots of the
   first 64 primes, the initial state those of the square roots of the
   first 8 primes. *)
Definition is_prime (n : Z) : bool :=
  forallb (fun d => negb (n mod Z.of_nat d =? 0)) (seq 2 (Z.to_nat n - 2)).
Definition primes64 : list Z :=
  Eval vm_compute in filter (fun n => is_prime n = true) (map Z.of_nat (seq 2 310)).
Definition icbrt (n : Z) : Z :=
  fold_left (fun r b => let r' := r + 2 ^ Z.of_nat b in
                        if r' * r' * r' <=? n then r' else r)
            (rev (seq 0 40)) 0.
Definition K256 : list Z :=
  Eval vm_compute in map (fun p => w32 (icbrt (p * 2 ^ 96))) primes64.
Definition H256 : list Z :=
  Eval vm_compute in map (fun p => w32 (Z.sqrt (p * 2 ^ 64))) (take 8 primes64).

Fixpoint bytes_of_string (s : string) : list Z :=
  match s with
  | EmptyString => []
  | String a r => Z.of_N (N_of_ascii a) :: bytes_of_string r
  end.

Definition be_bytes (k : nat) (x : Z) : list Z :=
  map (fun i => (Z.shiftr x (8 * Z.of_nat i)) mod 256) (rev (seq 0 k)).

Definition pad (m : list Z) : list Z :=
  let l := Z.of_nat (List.length m) in
  m ++ [128] ++ replicate (Z.to_nat ((55 - l) mod 64)) 0 ++ be_bytes 8 (8 * l).

Fixpoint words (fuel : nat) (bs : list Z) : list Z :=
  match fuel, bs with
  | S f, b0 :: b1 :: b2 :: b3 :: r =>
      (b0 * 2 ^ 24 + b1 * 2 ^ 16 + b2 * 2 ^ 8 + b3) :: words f r
  | _, _ => []
  end.

Definition nthZ (l : list Z) (i : nat) : Z := nth i l 0.

Definition schedule (blk : list Z) : list Z :=
  fold_left (fun w t =>
    w ++ [w32 (ssig1 (nthZ w (t - 2)) + nthZ w (t - 7)
               + ssig0 (nthZ w (t - 15)) + nthZ w (t - 16))])
    (seq 16 48) blk.

Definition round (st : list Z) (kw : Z * Z) : list Z :=
  match st with
  | [a; b; c; d; e; f; g; h] =>
      let t1 := h + bsig1 e + Ch e f g + fst kw + snd kw in
      let t2 := bsig0 a + Maj a b c in
      [w32 (t1 + t2); a; b; c; w32 (d + t1); e; f; g]
  | _ => st
  end.

Definition compress (st blk : list Z) : list Z :=
  let out := fold_left round (combine K256 (schedule blk)) st in
  map (fun p => w32 (fst p + snd p)) (combine st out).

Fixpoint blocks (fuel : nat) (ws : list Z) (st : list Z) : list Z :=
  match fuel, ws with
  | S f, _ :: _ => blocks f (drop 16 ws) (compress st (take 16 ws))
  | _, _ => st
  end.

Definition hex_digit (d : Z) : ascii :=
  ascii_of_N (Z.to_N (if d <? 10 then 48 + d else 87 + d)).

Fixpoint hex_of_bytes (bs : list Z) : string :=
  match bs with
  | [] => EmptyString
  | b :: r => String (hex_digit (b / 16)) (String (hex_digit (b mod 16)) (hex_of_bytes r))
  end.

Definition digest_hex (s : string) : string :=
  let bs := pad (bytes_of_string s) in
  let ws := words (List.length bs) bs in
  hex_of_bytes (concat (map (be_bytes 4) (blocks (List.length ws) ws H256))).

End Sha256.

Definition sha256 (s : string) : string := Sha256.digest_hex s.
#[global] Opaque sha256.

(** ** Documents, collections and the store *)

Inductive Value :=
| VStr (s : string)
| VNum (n : Z)
| VBool (b : bool).

#[global] Instance Value_eq_dec : EqDecision Value.
Proof. solve_decision. Defined.

Abbreviation Doc := (gmap string Value).

(** A filter [{field: value}] and a [$set: {field: value}] update. *)
Definition Filter : Type := string * Value.

Definition matches (q : Filter) (d : Doc) : bool :=
  bool_decide (d !! q.1 = Some q.2).

Definition findOne (q : Filter) (c : list Doc) : option Doc :=
  find (matches q) c.

Fixpoint updateOne (q : Filter) (set : string * Value) (c : list Doc) : list Doc :=
  match c with
  | [] => []
  | d :: r => if matches q d then <[set.1 := set.2]> d :: r
              else d :: updateOne q set r
  end.

Fixpoint deleteOne (q : Filter) (c : list Doc) : list Doc :=
  match c with
  | [] => []
  | d :: r => if matches q d then r else d :: deleteOne q r
  end.

Definition insertOne (d : Doc) (c : list Doc) : list Doc := c ++ [d].

(** The [status] document: [{playing, lastSignificantChange}], the date in
    milliseconds. *)
Record Status := { playing : bool; lastSignificantChange : Z }.

(** The database ['game-' + code] with its two collections. *)
Record GameDb := { status : list Status; players : list Doc }.

Definition emptyDb : GameDb := {| status := []; players := [] |}.

(** The [games] collection of the ['games'] database, one [{code}] document
    per entry, and the per-game databases by code. *)
Record Store := { games : list Z; dbs : gmap Z GameDb }.

Definition emptyStore : Store := {| games := []; dbs := ∅ |}.

(** [db.db('game-' + code)]: a database that was never written reads as
    empty. *)
Definition db (s : Store) (code : Z) : GameDb := default emptyDb (dbs s !! code).

(** [gamesCollection.findOne({ code })], as a truth value. *)
Definition gamesFindOne (code : Z) (g : list Z) : bool := bool_decide (code ∈ g).

(** [gamesCollection.deleteOne({ code })]; a [code] that is not a number
    ([None]) matches no entry. *)
Fixpoint gamesDeleteOne (code : option Z) (g : list Z) : list Z :=
  match g with
  | [] => []
  | c :: r => if bool_decide (code = Some c) then r else c :: gamesDeleteOne code r
  end.

(** Writes to the [players] collection of one game. An update or a delete
    on a database that does not exist changes nothing; an insert creates
    it. *)
Definition withPlayers (f : list Doc → list Doc) (g : GameDb) : GameDb :=
  {| status := status g; players := f (players g) |}.

Definition alterPlayers (f : list Doc → list Doc) (code : Z) (s : Store) : Store :=
  {| games := games s; dbs := alter (withPlayers f) code (dbs s) |}.

Definition insertPlayer (d : Doc) (code : Z) (s : Store) : Store :=
  {| games := games s;
     dbs := <[code := withPlayers (insertOne d) (db s code)]> (dbs s) |}.

Definition insertStatus (st : Status) (code : Z) (s : Store) : Store :=
  {| games := games s;
     dbs := <[code := {| status := status (db s code) ++ [st];
                         players := players (db s code) |}]> (dbs s) |}.

Definition dropDatabase (code : Z) (s : Store) : Store :=
  {| games := games s; dbs := delete code (dbs s) |}.

Definition gamesDelete (code : option Z) (s : Store) : Store :=
  {| games := gamesDeleteOne code (games s); dbs := dbs s |}.

(** ** Exceptions and outcomes *)

Inductive Exn :=
| UserException (message type : string)
| JsError (message : string)
| TypeError (message : string).

Definition exn_type (e : Exn) : string :=
  match e with
  | UserException _ t => t
  | _ => ""
  end.

Inductive outcome (A : Type) :=
| Return (a : A)
| Throw (e : Exn).
Arguments Return {A} a.
Arguments Throw {A} e.

Definition nullPlaying : Exn := TypeError "Cannot read property 'playing' of null".

(** ** createGame *)

Definition maxGameCode : Z := 1000000.
Definition minGameCode : Z := 0.

(** [draws] are the successive values of
    [Math.floor(Math.random() * (maxGameCode - minGameCode)) + minGameCode];
    the loop ends at the first one that is not registered, and [None] says
    that the draws given ran out before that. *)
Definition createGame (now : Z) (draws : list Z) (s : Store)
  : option (outcome Z * Store) :=
  if 100000 <? Z.of_nat (length (games s)) then
    Some (Throw (JsError "There are too many games in progress to start a new one."), s)
  else
    match find (fun c => negb (gamesFindOne c (games s))) draws with
    | None => None
    | Some gameCode =>
        let s1 := insertStatus {| playing := false; lastSignificantChange := now |}
                               gameCode s in
        Some (Return gameCode,
              {| games := games s1 ++ [gameCode]; dbs := dbs s1 |})
    end.

(** ** joinGame *)

Record JoinReply := { jr_gameCode : Z; jr_name : string; jr_key : string }.

Definition playerDoc (name : string) (order : Z) (hashedKey : string) : Doc :=
  {[ "name" := VStr name; "order" := VNum order; "hashedKey" := VStr hashedKey ]}.

Definition joinGame (name : string) (gameCode : Z) (key : string) (s : Store)
  : outcome JoinReply * Store :=
  let gameDb := db s gameCode in
  let v0 := gamesFindOne gameCode (games s) in
  let v1 := head (status gameDb) in
  let v2 := findOne ("name", VStr name) (players gameDb) in
  let v3 := players gameDb in
  if negb v0 then
    (Throw (UserException ("The game " +:+ pretty gameCode +:+ " does not exist.") ""), s)
  else
    match v1 with
    | None => (Throw nullPlaying, s)
    | Some st =>
        if negb (bool_decide (playing st = false)) then
          (Throw (UserException "Cannot join game. It is currently in progress." ""), s)
        else if bool_decide (is_Some v2) then
          (Throw (UserException
             "Your chosen name is in use by another player. Please use another name." ""), s)
        else if bool_decide (10 ≤ length v3)%nat then
          (Throw (UserException "There are already 10 players in this game" ""), s)
        else
          (Return {| jr_gameCode := gameCode; jr_name := name; jr_key := key |},
           insertPlayer (playerDoc name (Z.of_nat (length v3) + 1) (sha256 key))
                        gameCode s)
    end.

(** ** authUser *)

Record AuthKey := { ak_gameCode : Z; ak_name : string; ak_key : string }.

Record AuthReply := { authenticated : bool; ar_name : string; ar_gameCode : Z }.

Definition authUser (socketClientId : string) (authKey : AuthKey) (s : Store)
  : outcome AuthReply * Store :=
  let query : Filter := ("code", VNum (ak_gameCode authKey)) in
  if negb (gamesFindOne (ak_gameCode authKey) (games s)) then
    (Throw (UserException "The game you are trying to enter does not exist" "authError"), s)
  else
    match findOne ("name", VStr (ak_name authKey))
                  (players (db s (ak_gameCode authKey))) with
    | None =>
        (Throw (UserException "You have not yet joined the game properly" "authError"), s)
    | Some player =>
        let s1 := alterPlayers (updateOne query ("socketClientId", VStr socketClientId))
                               (ak_gameCode authKey) s in
        if bool_decide (player !! "hashedKey" = Some (VStr (sha256 (ak_key authKey)))) then
          (Return {| authenticated := true;
                     ar_name := ak_name authKey;
                     ar_gameCode := ak_gameCode authKey |}, s1)
        else
          (Throw (UserException "Unauthorized" "authError"), s1)
    end.

(** ** getGameStatus and the status push *)

(** One entry of the [players] array of a snapshot:
    [{name: player.name, order: player.order, gameCode: player.gameCode}],
    a field the document lacks being [undefined]. *)
Record PlayerView := {
  pv_name : option Value;
  pv_order : option Value;
  pv_gameCode : option Value
}.

Definition playerView (d : Doc) : PlayerView :=
  {| pv_name := d !! "name"; pv_order := d !! "order"; pv_gameCode := d !! "gameCode" |}.

(** What [getGameStatus] resolves to: [{playing: false, players}], nothing
    when the function falls off its end, or [{error}]. *)
Inductive GameStatus :=
| Lobby (players : list PlayerView)
| Undefined
| ErrorStatus (message : string).

(** The body of the [try] block. [readFails] says that one of the two
    store reads rejects. *)
Definition getGameStatus_try (readFails : bool) (gameDb : GameDb) : outcome GameStatus :=
  if readFails then Throw (JsError "store read failed")
  else
    match head (status gameDb) with
    | None => Throw nullPlaying
    | Some st =>
        if negb (playing st) then Return (Lobby (map playerView (players gameDb)))
        else Return Undefined
    end.

Definition getGameStatus (readFails : bool) (gameDb : GameDb) : outcome GameStatus :=
  match getGameStatus_try readFails gameDb with
  | Return g => Return g
  | Throw _ => Return (ErrorStatus "An unexpected error occurred")
  end.

(** ** changeName *)

Definition changeName (gameCode : Z) (currentName newName : string) (s : Store)
  : outcome string * Store :=
  if bool_decide (currentName = newName) then
    (Throw (UserException "You entered the same name as your current name" ""), s)
  else if bool_decide (newName = "") then
    (Throw (UserException "You cannot have a blank name" ""), s)
  else
    match head (status (db s gameCode)) with
    | None => (Throw nullPlaying, s)
    | Some st =>
        if playing st then
          (Throw (UserException "Cannot changle player name while game in progress" ""), s)
        else
          let query : Filter := ("name", VStr currentName) in
          match findOne query (players (db s gameCode)) with
          | None => (Throw (UserException "Your current player does not exist" ""), s)
          | Some _ =>
              (Return newName,
               alterPlayers (updateOne query ("name", VStr newName)) gameCode s)
          end
    end.

(** ** removePlayer *)

(** The payload of a [removalRequest]: the fields [removePlayer] reads.
    [rr_gameCode] is [None] when the field is absent or not a number. *)
Record RemovalRequest := { rr_name : string; rr_gameCode : option Z }.

Record RemovalReply := {
  playerToRemove : RemovalRequest;
  rp_socketClientId : option Value
}.

(** [gameCode] names the [gameDb] argument, the database of the game the
    calling connection authenticated for. *)
Definition removePlayer (gameCode : Z) (p : RemovalRequest) (s : Store)
  : outcome RemovalReply * Store :=
  let query : Filter := ("name", VStr (rr_name p)) in
  match head (status (db s gameCode)) with
  | None => (Throw nullPlaying, s)
  | Some st =>
      if playing st then
        (Throw (UserException "Cannot remove player while game in progress" ""), s)
      else
        match findOne query (players (db s gameCode)) with
        | None => (Throw (UserException "The player you try to remove is not in game" ""), s)
        | Some playerToRemoveMongo =>
            let s1 := alterPlayers (deleteOne query) gameCode s in
            let s2 :=
              if bool_decide (length (players (db s1 gameCode)) = 0%nat) then
                gamesDelete (rr_gameCode p) (dropDatabase gameCode s1)
              else s1 in
            (Return {| playerToRemove := p;
                       rp_socketClientId := playerToRemoveMongo !! "socketClientId" |},
             s2)
        end
  end.

(** ** The idle-game sweep *)

Definition msToLive (production : bool) : Z :=
  if production then 86400000 else 1800000.

(** Which store commands of a sweep reject, by game code. A command that
    rejects leaves the store as it was. *)
Record Faults := {
  statusReadFails : Z → bool;
  dropFails : Z → bool;
  deleteFails : Z → bool
}.

Definition noFaults : Faults :=
  {| statusReadFails := fun _ => false;
     dropFails := fun _ => false;
     deleteFails := fun _ => false |}.

Inductive LogLine :=
| LogDeleted (code : Z)
| LogError.

Definition shouldDie (ttl currentDate : Z) (st : option Status) : bool :=
  match st with
  | None => true
  | Some st => ttl <? currentDate - lastSignificantChange st
  end.

(** The two commands pushed for one game that should die. *)
Definition dropGame (f : Faults) (s : Store) (code : Z) : Store :=
  let s1 := if dropFails f code then s else dropDatabase code s in
  if deleteFails f code then s1 else gamesDelete (Some code) s1.

(** One run of the [setInterval] callback at time [currentDate]. All the
    status reads are awaited together before anything is dropped; the drop
    commands are all issued before they are awaited together. *)
Definition expiryTick (f : Faults) (production : bool) (currentDate : Z) (s : Store)
  : Store * list LogLine :=
  if existsb (statusReadFails f) (games s) then (s, [LogError])
  else
    let gameStatuses := map (fun code => (code, head (status (db s code)))) (games s) in
    let doomed :=
      map fst (filter (fun g => shouldDie (msToLive production) currentDate g.2 = true)
                      gameStatuses) in
    (foldl (dropGame f) s doomed,
     map LogDeleted doomed
     ++ (if existsb (fun c => dropFails f c || deleteFails f c) doomed
         then [LogError] else [])).

(** ** Socket handlers *)

Inductive Event :=
| MyError (e : Exn)
| GameStatusEvent (g : GameStatus)
| NameChanged (newName : string).

(** Where an event is sent. [ToRoom code] is an emit on
    [io.to('game-' + code + '-all')] made on the spot. [OnStoredRoomAll code]
    is an emit on the variable [roomAll] that the connection stored when it
    authenticated for game [code]; who receives it is for socket.io to say
    (from 4.0 on the stored object stays bound to the room; before, it is
    the namespace itself, whose list of target rooms every emit clears). *)
Inductive Emission :=
| ToSocket (ev : Event)
| ToRoom (gameCode : Z) (ev : Event)
| OnStoredRoomAll (gameCode : Z) (ev : Event).

(** [handleSocketError]: what goes to the socket. *)
Definition handleSocketError (e : Exn) : Emission :=
  match e with
  | UserException _ _ => ToSocket (MyError e)
  | _ => ToSocket (MyError (UserException "An unexpected error occurred" ""))
  end.

(** [roomAll.emit('gameStatus', await getGameStatus(gameDb))], the last
    statement of the three handlers. [getGameStatus] catches what its reads
    throw, so the [Throw] branch is here for the types only. *)
Definition pushStatus (readFails : bool) (gameCode : Z) (s : Store) : list Emission :=
  match getGameStatus readFails (db s gameCode) with
  | Return g => [ToRoom gameCode (GameStatusEvent g)]
  | Throw e => [handleSocketError e]
  end.

(** The per-connection variable [player]: [None] is [{authenticated: false}]. *)
Definition Conn : Type := option AuthReply.

Definition onAuthRequest (readFails : bool) (socketClientId : string)
    (authKey : AuthKey) (conn : Conn) (s : Store) : Conn * Store * list Emission :=
  match authUser socketClientId authKey s with
  | (Return authReply, s1) =>
      (Some authReply, s1, pushStatus readFails (ar_gameCode authReply) s1)
  | (Throw e, s1) => (conn, s1, [handleSocketError e])
  end.

(** The same statement in a handler that runs after the one that stored
    [roomAll]: no [io.to] is called again. *)
Definition pushStatusStored (readFails : bool) (gameCode : Z) (s : Store)
  : list Emission :=
  match getGameStatus readFails (db s gameCode) with
  | Return g => [OnStoredRoomAll gameCode (GameStatusEvent g)]
  | Throw e => [handleSocketError e]
  end.

Definition onChangeName (readFails : bool) (newName : string)
    (conn : Conn) (s : Store) : Conn * Store * list Emission :=
  match conn with
  | None => (conn, s, [])
  | Some player =>
      match changeName (ar_gameCode player) (ar_name player) newName s with
      | (Return n, s1) =>
          (Some {| authenticated := authenticated player;
                   ar_name := n;
                   ar_gameCode := ar_gameCode player |},
           s1,
           ToSocket (NameChanged newName)
             :: pushStatusStored readFails (ar_gameCode player) s1)
      | (Throw e, s1) => (conn, s1, [handleSocketError e])
      end
  end.

(** The store side of the [removalRequest] handler. *)
Definition onRemovalRequest (p : RemovalRequest) (conn : Conn) (s : Store) : Store :=
  match conn with
  | None => s
  | Some player => (removePlayer (ar_gameCode player) p s).2
  end.

(** ** joinGame, read and write apart

    [joinGame] awaits its four reads together and, after drawing the key,
    awaits its insert; other requests can run in between. *)

(** The reads and the checks on them: the roster size read
    ([validationDocs[3].length]), or the exception. *)
Definition joinGame_reads (name : string) (gameCode : Z) (s : Store) : outcome nat :=
  let gameDb := db s gameCode in
  let v0 := gamesFindOne gameCode (games s) in
  let v1 := head (status gameDb) in
  let v2 := findOne ("name", VStr name) (players gameDb) in
  let v3 := players gameDb in
  if negb v0 then
    Throw (UserException ("The game " +:+ pretty gameCode +:+ " does not exist.") "")
  else
    match v1 with
    | None => Throw nullPlaying
    | Some st =>
        if negb (bool_decide (playing st = false)) then
          Throw (UserException "Cannot join game. It is currently in progress." "")
        else if bool_decide (is_Some v2) then
          Throw (UserException
            "Your chosen name is in use by another player. Please use another name." "")
        else if bool_decide (10 ≤ length v3)%nat then
          Throw (UserException "There are already 10 players in this game" "")
        else Return (length v3)
    end.

(** The insert, with the roster size read earlier, on the store as it is
    by then. *)
Definition joinGame_insert (name : string) (gameCode : Z) (key : string) (size : nat)
    (s : Store) : JoinReply * Store :=
  ({| jr_gameCode := gameCode; jr_name := name; jr_key := key |},
   insertPlayer (playerDoc name (Z.of_nat size + 1) (sha256 key)) gameCode s).

(** ** authUser on any payload

    [authUser] on what an [authRequest] may carry: no payload at all
    ([None]), or a payload whose [key] is absent or not a string
    ([ap_key = None]), which [hash.update] refuses. *)
Record AuthPayload := { ap_gameCode : Z; ap_name : string; ap_key : option string }.

Definition nullGameCode : Exn := TypeError "Cannot read property 'gameCode' of null".

Definition badHashData : Exn :=
  TypeError "The data argument must be of type string or an instance of Buffer, TypedArray, or DataView.".

Definition authUserPayload (socketClientId : string) (authKey : option AuthPayload)
    (s : Store) : outcome AuthReply * Store :=
  match authKey with
  | None => (Throw nullGameCode, s)
  | Some authKey =>
      let query : Filter := ("code", VNum (ap_gameCode authKey)) in
      if negb (gamesFindOne (ap_gameCode authKey) (games s)) then
        (Throw (UserException "The game you are trying to enter does not exist"
                              "authError"), s)
      else
        match findOne ("name", VStr (ap_name authKey))
                      (players (db s (ap_gameCode authKey))) with
        | None =>
            (Throw (UserException "You have not yet joined the game properly"
                                  "authError"), s)
        | Some player =>
            let s1 := alterPlayers
                        (updateOne query ("socketClientId", VStr socketClientId))
                        (ap_gameCode authKey) s in
            match ap_key authKey with
            | None => (Throw badHashData, s1)
            | Some key =>
                if bool_decide (player !! "hashedKey" = Some (VStr (sha256 key))) then
                  (Return {| authenticated := true;
                             ar_name := ap_name authKey;
                             ar_gameCode := ap_gameCode authKey |}, s1)
                else
                  (Throw (UserException "Unauthorized" "authError"), s1)
            end
        end
  end.

(** The [authRequest] handler on any payload. *)
Definition onAuthRequestPayload (readFails : bool) (socketClientId : string)
    (authKey : option AuthPayload) (conn : Conn) (s : Store)
  : Conn * Store * list Emission :=
  match authUserPayload socketClientId authKey s with
  | (Return authReply, s1) =>
      (Some authReply, s1, pushStatus readFails (ar_gameCode authReply) s1)
  | (Throw e, s1) => (conn, s1, [handleSocketError e])
  end.

(** ** Sequences of operations *)

Inductive Op :=
| OpCreateGame (now : Z) (draws : list Z)
| OpJoinGame (name : string) (gameCode : Z) (key : string)
| OpAuthUser (socketClientId : string) (authKey : AuthKey)
| OpChangeName (gameCode : Z) (currentName newName : string)
| OpRemovePlayer (gameCode : Z) (p : RemovalRequest)
| OpExpiryTick (f : Faults) (production : bool) (currentDate : Z).

Definition step (s : Store) (o : Op) : Store :=
  match o with
  | OpCreateGame now draws =>
      match createGame now draws s with
      | Some (_, s') => s'
      | None => s
      end
  | OpJoinGame name gameCode key => (joinGame name gameCode key s).2
  | OpAuthUser sid authKey => (authUser sid authKey s).2
  | OpChangeName gameCode cur new => (changeName gameCode cur new s).2
  | OpRemovePlayer gameCode p => (removePlayer gameCode p s).2
  | OpExpiryTick f production now => (expiryTick f production now s).1
  end.

Definition run (ops : list Op) (s : Store) : Store := foldl step s ops.

(** ** Predicates on the store *)

(** No player document has a field named [code]. *)
Definition noCodeField (ps : list Doc) : bool :=
  forallb (fun d => bool_decide (d !! "code" = None)) ps.

Definition playerNames (ps : list Doc) : list (option Value) :=
  map (fun d => d !! "name") ps.

Definition uniqueNames (ps : list Doc) : Prop := NoDup (playerNames ps).

(** Whether the sweep at [currentDate] finds that game [code] should die. *)
Definition dies (production : bool) (currentDate : Z) (s : Store) (code : Z) : bool :=
  shouldDie (msToLive production) currentDate (head (status (db s code))).

(** The registry and the databases after the two commands of one doomed
    game, taken apart. *)
Definition gamesAfter (f : Faults) (g : list Z) (code : Z) : list Z :=
  if deleteFails f code then g else gamesDeleteOne (Some code) g.

Definition dbsAfter (f : Faults) (m : gmap Z GameDb) (code : Z) : gmap Z GameDb :=
  if dropFails f code then m else delete code m.

(** [rosters P s]: the [players] collection of every game database
    satisfies [P]. *)
Definition rosters (P : list Doc → Prop) (s : Store) : Prop :=
  ∀ code g, dbs s !! code = Some g → P (players g).

(** At most ten player documents in every game. *)
Definition rosterBound (s : Store) : Prop :=
  rosters (fun l => (length l ≤ 10)%nat) s.

(** An operation other than [changeName]. *)
Definition noRename (o : Op) : Prop :=
  match o with OpChangeName _ _ _ => False | _ => True end.

(** ** POST /join *)

(** The body of a [/join] request: [playerName] and [gameCode], each
    [None] when absent or [null]. A name is read as its sequence of code
    units, so [String.length] is [playerName.length]. *)
Record JoinRequest := { req_playerName : option string; req_gameCode : option Z }.

Inductive Body :=
| JoinedBody (r : JoinReply)
| ErrorBody (e : Exn).

Record Response := { res_status : Z; res_body : Body }.

Definition gameCodeMessage : string :=
  "Game code must be integer between" +:+ String (ascii_of_nat 10) ""
  +:+ "                " +:+ pretty minGameCode +:+ " (inclusive) and "
  +:+ pretty maxGameCode +:+ " (exclusive).".

(** The [try] block of the handler. [None]: [createGame] ran out of the
    draws given. *)
Definition postJoin_try (req : JoinRequest) (now : Z) (draws : list Z) (key : string)
    (s : Store) : option (outcome JoinReply * Store) :=
  match req_playerName req with
  | None => Some (Throw (UserException "Must enter a name" ""), s)
  | Some playerName =>
      if bool_decide (playerName = "") then
        Some (Throw (UserException "Must enter a name" ""), s)
      else if bool_decide (20 < String.length playerName)%nat then
        Some (Throw (UserException "Max name length is 20 characters" ""), s)
      else if match req_gameCode req with
              | Some gameCode => (gameCode <? minGameCode) || (maxGameCode <=? gameCode)
              | None => false
              end then
        Some (Throw (UserException gameCodeMessage ""), s)
      else
        match req_gameCode req with
        | Some gameCode => Some (joinGame playerName gameCode key s)
        | None =>
            match createGame now draws s with
            | None => None
            | Some (Throw e, s1) => Some (Throw e, s1)
            | Some (Return gameCode, s1) => Some (joinGame playerName gameCode key s1)
            end
        end
  end.

Definition isUserException (e : Exn) : bool :=
  match e with UserException _ _ => true | _ => false end.

Definition maskedJoinError : Exn :=
  JsError "An unexpected error occurred while processing your request".

(** The handler with its [catch]: the response, what [console.error]
    printed, and the store. [production] is
    [process.env.NODE_ENV === 'production'], so [dev] is its negation. *)
Definition postJoin (production : bool) (req : JoinRequest) (now : Z) (draws : list Z)
    (key : string) (s : Store) : option (Response * list Exn * Store) :=
  match postJoin_try req now draws key s with
  | None => None
  | Some (Return r, s') => Some ({| res_status := 200; res_body := JoinedBody r |}, [], s')
  | Some (Throw e, s') =>
      if isUserException e || negb production then
        Some ({| res_status := 200; res_body := ErrorBody e |},
              if isUserException e then [] else [e], s')
      else
        Some ({| res_status := 500; res_body := ErrorBody maskedJoinError |}, [e], s')
  end.

(** ** The game page of the client *)

Inductive Route :=
| GameRoute
| EntryRoute.

(** The component once mounted with stored credentials:
    [sessionStorage.authKey], [this.player], the [players] and
    [gameInProgress] fields of its state ([None] is [undefined]), where
    the router points, and what [alert] showed. *)
Record Client := {
  sessionAuthKey : option AuthKey;
  thisPlayer : AuthKey;
  statePlayers : option (list PlayerView);
  stateGameInProgress : bool;
  route : Route;
  alerts : list string
}.

(** [componentDidMount] with [sessionStorage.authKey] set. *)
Definition mounted (authKey : AuthKey) : Client :=
  {| sessionAuthKey := Some authKey;
     thisPlayer := authKey;
     statePlayers := Some [];
     stateGameInProgress := false;
     route := GameRoute;
     alerts := [] |}.

Definition exn_message (e : Exn) : string :=
  match e with
  | UserException m _ => m
  | JsError m => m
  | TypeError m => m
  end.

(** The ['myError'] handler. *)
Definition clientOnMyError (error : Exn) (c : Client) : Client :=
  let c1 := {| sessionAuthKey := sessionAuthKey c;
               thisPlayer := thisPlayer c;
               statePlayers := statePlayers c;
               stateGameInProgress := stateGameInProgress c;
               route := route c;
               alerts := alerts c ++ [exn_message error] |} in
  if bool_decide (exn_type error = "authError") then
    {| sessionAuthKey := None;
       thisPlayer := thisPlayer c1;
       statePlayers := statePlayers c1;
       stateGameInProgress := stateGameInProgress c1;
       route := EntryRoute;
       alerts := alerts c1 |}
  else c1.

(** The ['gameStatus'] handler: [if (!status.playing) setState(...)]. An
    [undefined] payload arrives as [null], and reading [playing] off it
    throws; an error snapshot has no [playing] and no [players]. *)
Definition clientOnGameStatus (status : GameStatus) (c : Client) : outcome Client :=
  let setPlayers ps :=
    {| sessionAuthKey := sessionAuthKey c;
       thisPlayer := thisPlayer c;
       statePlayers := ps;
       stateGameInProgress := false;
       route := route c;
       alerts := alerts c |} in
  match status with
  | Lobby ps => Return (setPlayers (Some ps))
  | Undefined => Throw nullPlaying
  | ErrorStatus _ => Return (setPlayers None)
  end.

(** The ['nameChanged'] handler. *)
Definition clientOnNameChanged (newName : string) (c : Client) : Client :=
  let player := {| ak_gameCode := ak_gameCode (thisPlayer c);
                   ak_name := newName;
                   ak_key := ak_key (thisPlayer c) |} in
  {| sessionAuthKey := Some player;
     thisPlayer := player;
     statePlayers := statePlayers c;
     stateGameInProgress := stateGameInProgress c;
     route := route c;
     alerts := alerts c |}.

(** The ['kicked'] handler. *)
Definition clientOnKicked (c : Client) : Client :=
  {| sessionAuthKey := None;
     thisPlayer := thisPlayer c;
     statePlayers := statePlayers c;
     stateGameInProgress := stateGameInProgress c;
     route := EntryRoute;
     alerts := alerts c |}.

(** One event arriving at the client. *)
Definition clientOn (ev : Event) (c : Client) : outcome Client :=
  match ev with
  | MyError e => Return (clientOnMyError e c)
  | GameStatusEvent g => clientOnGameStatus g c
  | NameChanged n => Return (clientOnNameChanged n c)
  end.

(** ** More predicates on the store *)

(** What every player document written by the server looks like: a string
    [name], an [order] from 1 to 10, a string [hashedKey], no [gameCode]. *)
Definition playerSchema (d : Doc) : Prop :=
  ∃ n o h, d !! "name" = Some (VStr n)
           ∧ d !! "order" = Some (VNum o) ∧ 1 ≤ o ≤ 10
           ∧ d !! "hashedKey" = Some (VStr h)
           ∧ d !! "gameCode" = None.

(** ** Example stores *)

Definition keyAlice : string :=
  "9f2c4e8a1b3d5f60718293a4b5c6d7e8f9012a3b4c5d6e7f8091a2b3c4d5e6f7".

Definition keyBob : string :=
  "0a1b2c3d4e5f60718a9bacbdcedff0e1d2c3b4a5968778695a4b3c2d1e0f1a2b".

(** One game, code 5, created at time 1000, that Alice joined. *)
Definition aliceAlone : Store :=
  run [OpCreateGame 1000 [5]; OpJoinGame "Alice" 5 keyAlice] emptyStore.

(** The same game after Bob joined as well. *)
Definition aliceAndBob : Store :=
  run [OpJoinGame "Bob" 5 keyBob] aliceAlone.

(** A game with ten players. *)
Definition tenPlayers : Store :=
  run (OpCreateGame 1000 [5]
       :: map (fun n => OpJoinGame n 5 keyAlice)
              ["P1"; "P2"; "P3"; "P4"; "P5"; "P6"; "P7"; "P8"; "P9"; "P10"])
      emptyStore.

(** Two games, codes 1 and 2, created at time 0; the second creation draws
    the taken code 1 first. *)
Definition twoIdleGames : Store :=
  run [OpCreateGame 0 [1]; OpJoinGame "Alice" 1 keyAlice;
       OpCreateGame 0 [1; 2]; OpJoinGame "Bob" 2 keyBob] emptyStore.

(** Game 5 with a round in progress. *)
Definition roundInProgress : Store :=
  {| games := [5];
     dbs := {[ 5 := {| status := [{| playing := true; lastSignificantChange := 1000 |}];
                       players := [playerDoc "Alice" 1 (sha256 keyAlice)] |} ]} |}.

(** The status read of game 1 rejects; nothing else does. *)
Definition readOfGame1Fails : Faults :=
  {| statusReadFails := fun code => bool_decide (code = 1);
     dropFails := fun _ => false;
     deleteFails := fun _ => false |}.

(** The drop commands of game 1 reject; nothing else does. *)
Definition dropOfGame1Fails : Faults :=
  {| statusReadFails := fun _ => false;
     dropFails := fun code => bool_decide (code = 1);
     deleteFails := fun code => bool_decide (code = 1) |}.

(** Credentials for Alice in game 5, with Bob's key and with her own. *)
Definition wrongKeyForAlice : AuthKey :=
  {| ak_gameCode := 5; ak_name := "Alice"; ak_key := keyBob |}.

Definition rightKeyForAlice : AuthKey :=
  {| ak_gameCode := 5; ak_name := "Alice"; ak_key := keyAlice |}.

(** A removal request for Alice that carries no [gameCode]. *)
Definition aliceWithoutGameCode : RemovalRequest :=
  {| rr_name := "Alice"; rr_gameCode := None |}.

(** The [n] codes from [from] on. *)
Fixpoint codesFrom (n : nat) (from : Z) : list Z :=
  match n with
  | O => []
  | S n' => from :: codesFrom n' (from + 1)
  end.

(** More than 100000 registered games (codes 0 to 100000), and exactly
    100000 (codes 0 to 99999). *)
Definition overfullRegistry : Store :=
  {| games := codesFrom (Z.to_nat 100001) 0; dbs := ∅ |}.

Definition fullRegistry : Store :=
  {| games := codesFrom (Z.to_nat 100000) 0; dbs := ∅ |}.

(** Games 1 (Alice) and 2 (Bob) after a connection of game 2 removed Bob
    with a request that names game 1: the database of game 2 is dropped,
    the registry entry of game 1 is deleted, and the database of game 1 is
    left behind, unregistered. *)
Definition game1Unregistered : Store :=
  run [OpRemovePlayer 2 {| rr_name := "Bob"; rr_gameCode := Some 1 |}] twoIdleGames.

(** Game 5 after its only player was removed by a request without a
    [gameCode]: still registered, its database dropped. *)
Definition game5WithoutDatabase : Store :=
  run [OpRemovePlayer 5 aliceWithoutGameCode] aliceAlone.

(** Bob's credentials, the connection bound to him, and his client. *)
Definition keyOfBob : AuthKey :=
  {| ak_gameCode := 5; ak_name := "Bob"; ak_key := keyBob |}.

Definition bobConnected : AuthReply :=
  {| authenticated := true; ar_name := "Bob"; ar_gameCode := 5 |}.

Definition bobClient : Client := mounted keyOfBob.

(** Two [/join] requests: Alice asks for a new game, Bob for game 5. *)
Definition aliceRequestsNewGame : JoinRequest :=
  {| req_playerName := Some "Alice"; req_gameCode := None |}.

Definition bobRequestsGame5 : JoinRequest :=
  {| req_playerName := Some "Bob"; req_gameCode := Some 5 |}.

(** A game with nine players. *)
Definition ninePlayers : Store :=
  run (OpCreateGame 1000 [5]
       :: map (fun n => OpJoinGame n 5 keyAlice)
              ["P1"; "P2"; "P3"; "P4"; "P5"; "P6"; "P7"; "P8"; "P9"])
      emptyStore.

(** Game 5 after Bob renamed himself to Alice. *)
Definition aliceTwice : Store :=
  run [OpChangeName 5 "Bob" "Alice"] aliceAndBob.

(** A payload for Alice in game 5 without a key. *)
Definition aliceWithoutKey : AuthPayload :=
  {| ap_gameCode := 5; ap_name := "Alice"; ap_key := None |}.

(** * Properties *)

(** Closes a decidable goal about concrete data by evaluation. *)
Ltac by_evaluation := apply (bool_decide_unpack _); vm_compute; exact I.

(** ** The digest *)

(** The test vectors of FIPS 180-4 for the empty message, ["abc"] and the
    two-block message. *)
Example sha256_empty :
  sha256 "" = "e3b0c44298fc1c149afbf4c8996fb92427ae41e4649b934ca495991b7852b855".
Proof. vm_compute; reflexivity. Qed.

Example sha256_abc :
  sha256 "abc" = "ba7816bf8f01cfea414140de5dae2223b00361a396177a9cb410ff61f20015ad".
Proof. vm_compute; reflexivity. Qed.

Example sha256_two_blocks :
  sha256 "abcdbcdecdefdefgefghfghighijhijkijkljklmklmnlmnomnopnopq"
  = "248d6a61d20638b8e5c026930c3e6039a33ce45964ff2167f6ecedd419db06c1".
Proof. vm_compute; reflexivity. Qed.

(** ** Collections *)

Lemma store_eq (s s' : Store) :
  games s = games s' → dbs s = dbs s' → s = s'.
Proof. destruct s, s'; simpl; intros -> ->; reflexivity. Qed.

Lemma noCodeField_matches (ps : list Doc) (v : Value) (d : Doc) :
  noCodeField ps = true → d ∈ ps → matches ("code", v) d = false.
Proof.
  unfold noCodeField. rewrite forallb_forall. intros Hall Hd.
  apply list_elem_of_In, Hall in Hd. apply bool_decide_eq_true in Hd.
  unfold matches; simpl. apply bool_decide_eq_false. rewrite Hd. discriminate.
Qed.

Lemma updateOne_no_match (q : Filter) (set : string * Value) (c : list Doc) :
  (∀ d, d ∈ c → matches q d = false) → updateOne q set c = c.
Proof.
  induction c as [|d r IH]; intros Hno; simpl; [reflexivity|].
  rewrite (Hno d) by left.
  f_equal. apply IH. intros d' Hd'. apply Hno. by right.
Qed.

Lemma alterPlayers_same (f : list Doc → list Doc) (code : Z) (s : Store) :
  f (players (db s code)) = players (db s code) → alterPlayers f code s = s.
Proof.
  intros Hf. apply store_eq; simpl; [reflexivity|].
  apply map_eq. intros c. rewrite lookup_alter.
  case_decide as Hc; [subst c|reflexivity].
  unfold db in Hf. destruct (dbs s !! code) as [g|]; simpl in *; [|reflexivity].
  unfold withPlayers. rewrite Hf. by destruct g.
Qed.

Lemma findOne_Some (q : Filter) (c : list Doc) (d : Doc) :
  findOne q c = Some d → d ∈ c ∧ d !! q.1 = Some q.2.
Proof.
  unfold findOne. intros H. apply find_some in H as [Hin Hm].
  split; [by apply list_elem_of_In|]. by apply bool_decide_eq_true in Hm.
Qed.

Lemma findOne_None (q : Filter) (c : list Doc) (d : Doc) :
  findOne q c = None → d ∈ c → d !! q.1 ≠ Some q.2.
Proof.
  unfold findOne. intros H Hin Hd.
  apply list_elem_of_In in Hin.
  pose proof (find_none _ _ H _ Hin) as Hm.
  apply bool_decide_eq_false in Hm. contradiction.
Qed.

(** With unique names, the lookup by name returns the one document of
    that name. *)
Lemma findOne_unique (n : Value) (c : list Doc) (d d' : Doc) :
  uniqueNames c → findOne ("name", n) c = Some d →
  d' ∈ c → d' !! "name" = Some n → d' = d.
Proof.
  unfold uniqueNames, playerNames, findOne.
  induction c as [|x r IH]; simpl; intros Hnd Hf Hin Hn; [inversion Hin|].
  apply NoDup_cons in Hnd as [Hx Hnd].
  unfold matches in Hf; simpl in Hf. case_bool_decide as Hm.
  - injection Hf as <-.
    apply elem_of_cons in Hin as [->|Hin]; [reflexivity|].
    exfalso. apply Hx. rewrite Hm, <- Hn.
    apply list_elem_of_In, in_map, list_elem_of_In, Hin.
  - apply elem_of_cons in Hin as [->|Hin]; [contradiction|].
    by apply IH.
Qed.

(** ** authUser *)

(** The [updateOne] of [authUser] filters the [players] collection by
    [{code}]; where no player document has that field it matches nothing,
    and the call leaves the whole store as it found it, whatever it
    returns. *)
Lemma authUser_store (sid : string) (ak : AuthKey) (s : Store) :
  noCodeField (players (db s (ak_gameCode ak))) = true →
  (authUser sid ak s).2 = s.
Proof.
  intros Hwf. unfold authUser.
  destruct (gamesFindOne _ _); simpl; [|reflexivity].
  destruct (findOne _ _) as [player|]; [|reflexivity].
  assert (alterPlayers
            (updateOne ("code", VNum (ak_gameCode ak)) ("socketClientId", VStr sid))
            (ak_gameCode ak) s = s) as ->.
  { apply alterPlayers_same, updateOne_no_match.
    intros d Hd. by eapply noCodeField_matches. }
  by case_bool_decide.
Qed.

Lemma authUser_throws_authError (sid : string) (ak : AuthKey) (s s' : Store) (e : Exn) :
  authUser sid ak s = (Throw e, s') → ∃ m, e = UserException m "authError".
Proof.
  unfold authUser.
  destruct (gamesFindOne _ _); simpl; [|intros [= <- _]; eauto].
  destruct (findOne _ _) as [player|]; [|intros [= <- _]; eauto].
  case_bool_decide; [discriminate|intros [= <- _]; eauto].
Qed.

Lemma authUser_reply (sid : string) (ak : AuthKey) (s s' : Store) (r : AuthReply) :
  authUser sid ak s = (Return r, s') →
  r = {| authenticated := true; ar_name := ak_name ak; ar_gameCode := ak_gameCode ak |}.
Proof.
  unfold authUser.
  destruct (gamesFindOne _ _); simpl; [|discriminate].
  destruct (findOne _ _); [|discriminate].
  case_bool_decide; [|discriminate]. by intros [= <- _].
Qed.

Lemma authUser_returns (sid : string) (ak : AuthKey) (s : Store) :
  (∃ r s', authUser sid ak s = (Return r, s'))
  ↔ ak_gameCode ak ∈ games s
    ∧ ∃ p, findOne ("name", VStr (ak_name ak)) (players (db s (ak_gameCode ak))) = Some p
           ∧ p !! "hashedKey" = Some (VStr (sha256 (ak_key ak))).
Proof.
  unfold authUser, gamesFindOne. split.
  - intros (r & s' & H).
    case_bool_decide as Hg; simpl in H; [|discriminate].
    destruct (findOne _ _) as [player|]; [|discriminate].
    case_bool_decide as Hk; [|discriminate]. eauto.
  - intros (Hg & p & Hp & Hk).
    rewrite bool_decide_eq_true_2 by done. simpl. rewrite Hp.
    rewrite bool_decide_eq_true_2 by done. eauto.
Qed.

(** C1. A call of [authUser] that fails (game missing, player missing or
    digest mismatch) leaves the store, and so every player document and its
    [socketClientId], exactly as it was, in every store whose player
    documents of that game have no [code] field (those [joinGame] inserts
    have none). *)
Theorem authUser_failure_changes_nothing
    (sid : string) (ak : AuthKey) (s s' : Store) (e : Exn) :
  noCodeField (players (db s (ak_gameCode ak))) = true →
  authUser sid ak s = (Throw e, s') →
  s' = s
  ∧ ∀ code, players (db s' code) = players (db s code).
Proof.
  intros Hwf H. pose proof (authUser_store sid ak s Hwf) as Hs.
  rewrite H in Hs. simpl in Hs. subst s'. done.
Qed.

(** On a string key and where names are unique in the game's roster,
    [authUser] returns [{authenticated: true, name, gameCode}] if and only
    if the game is registered and a player document of that name in it
    stores the SHA-256 digest of the supplied key; and whatever it throws
    is a [UserException] of type ["authError"]. *)
Theorem authUser_succeeds_iff (sid : string) (ak : AuthKey) (s : Store) :
  uniqueNames (players (db s (ak_gameCode ak))) →
  ((∃ s', authUser sid ak s
          = (Return {| authenticated := true;
                       ar_name := ak_name ak;
                       ar_gameCode := ak_gameCode ak |}, s'))
   ↔ (ak_gameCode ak ∈ games s
      ∧ ∃ p, p ∈ players (db s (ak_gameCode ak))
             ∧ p !! "name" = Some (VStr (ak_name ak))
             ∧ p !! "hashedKey" = Some (VStr (sha256 (ak_key ak)))))
  ∧ (∀ r s', authUser sid ak s = (Return r, s') →
             r = {| authenticated := true;
                    ar_name := ak_name ak;
                    ar_gameCode := ak_gameCode ak |})
  ∧ (∀ e s', authUser sid ak s = (Throw e, s') →
             ∃ m, e = UserException m "authError").
Proof.
  intros Huniq. split; [|split].
  - split.
    + intros (s' & H).
      assert (∃ r s', authUser sid ak s = (Return r, s')) as Hr by eauto.
      apply authUser_returns in Hr as (Hg & p & Hp & Hk).
      apply findOne_Some in Hp as [Hin Hn]. eauto 10.
    + intros (Hg & p & Hin & Hn & Hk).
      assert (∃ r s', authUser sid ak s = (Return r, s')) as (r & s' & H).
      { apply authUser_returns. split; [done|].
        destruct (findOne ("name", VStr (ak_name ak))
                          (players (db s (ak_gameCode ak)))) as [p'|] eqn:Hf.
        - exists p'. split; [done|].
          by rewrite <- (findOne_unique _ _ _ _ Huniq Hf Hin Hn).
        - exfalso. by eapply (findOne_None _ _ p Hf). }
      exists s'. by rewrite H, (authUser_reply _ _ _ _ _ H).
  - intros r s'. apply authUser_reply.
  - intros e s'. apply authUser_throws_authError.
Qed.

(** C3. In a store whose player documents of the game have no [code]
    field, a successful [authUser] writes nothing: the store after the call
    is the store before it, so a player document that did not carry
    [socketClientId = connectionId] before does not carry it afterwards. *)
Theorem authUser_success_binds_nothing
    (sid : string) (ak : AuthKey) (s s' : Store) (r : AuthReply) :
  noCodeField (players (db s (ak_gameCode ak))) = true →
  authUser sid ak s = (Return r, s') →
  s' = s
  ∧ ∀ p, findOne ("name", VStr (ak_name ak)) (players (db s (ak_gameCode ak))) = Some p →
         findOne ("name", VStr (ak_name ak)) (players (db s' (ak_gameCode ak))) = Some p.
Proof.
  intros Hwf H. pose proof (authUser_store sid ak s Hwf) as Hs.
  rewrite H in Hs. simpl in Hs. subst s'. done.
Qed.

(** ** Reading the store after a write *)

Lemma db_alterPlayers_eq (f : list Doc → list Doc) (code : Z) (s : Store) :
  f [] = [] → db (alterPlayers f code s) code = withPlayers f (db s code).
Proof.
  intros Hf. unfold db, alterPlayers; simpl. rewrite lookup_alter_eq.
  destruct (dbs s !! code); simpl; [reflexivity|].
  unfold withPlayers, emptyDb; simpl. by rewrite Hf.
Qed.

Lemma db_alterPlayers_ne (f : list Doc → list Doc) (code code' : Z) (s : Store) :
  code ≠ code' → dbs (alterPlayers f code s) !! code' = dbs s !! code'.
Proof. intros Hne. unfold alterPlayers; simpl. by rewrite lookup_alter_ne. Qed.

Lemma db_insertPlayer_eq (d : Doc) (code : Z) (s : Store) :
  db (insertPlayer d code s) code = withPlayers (insertOne d) (db s code).
Proof. unfold db at 1, insertPlayer; simpl. by rewrite lookup_insert_eq. Qed.

Lemma updateOne_split (q : Filter) (set : string * Value) (c : list Doc) (d : Doc) :
  findOne q c = Some d →
  ∃ l1 l2, c = l1 ++ d :: l2
           ∧ (∀ x, x ∈ l1 → matches q x = false)
           ∧ updateOne q set c = l1 ++ <[set.1 := set.2]> d :: l2.
Proof.
  unfold findOne. induction c as [|x r IH]; simpl; [discriminate|].
  destruct (matches q x) eqn:Hm.
  - intros [= ->]. exists [], r. split; [reflexivity|]. split; [|reflexivity].
    intros y Hy. inversion Hy.
  - intros Hf. destruct (IH Hf) as (l1 & l2 & -> & Hl1 & Hu).
    exists (x :: l1), l2. split; [reflexivity|]. split.
    + intros y [->|Hy]%elem_of_cons; [done|by apply Hl1].
    + simpl. by rewrite Hu.
Qed.

Lemma deleteOne_split (q : Filter) (c : list Doc) (d : Doc) :
  findOne q c = Some d →
  ∃ l1 l2, c = l1 ++ d :: l2 ∧ deleteOne q c = l1 ++ l2.
Proof.
  unfold findOne. induction c as [|x r IH]; simpl; [discriminate|].
  destruct (matches q x) eqn:Hm.
  - intros [= ->]. by exists [], r.
  - intros Hf. destruct (IH Hf) as (l1 & l2 & -> & Hu).
    exists (x :: l1), l2. simpl. by rewrite Hu.
Qed.

Lemma length_updateOne (q : Filter) (set : string * Value) (c : list Doc) :
  length (updateOne q set c) = length c.
Proof.
  induction c as [|x r IH]; simpl; [reflexivity|].
  destruct (matches q x); simpl; congruence.
Qed.

Lemma length_deleteOne (q : Filter) (c : list Doc) :
  (length (deleteOne q c) ≤ length c)%nat.
Proof.
  induction c as [|x r IH]; simpl; [lia|].
  destruct (matches q x); simpl; lia.
Qed.

Lemma findOne_skip (q : Filter) (l1 l2 : list Doc) :
  (∀ x, x ∈ l1 → matches q x = false) → findOne q (l1 ++ l2) = findOne q l2.
Proof.
  unfold findOne. induction l1 as [|x r IH]; intros Hno; simpl; [reflexivity|].
  rewrite (Hno x) by left. apply IH. intros y Hy. apply Hno. by right.
Qed.

Lemma findOne_None_matches (q : Filter) (c : list Doc) :
  findOne q c = None → ∀ x, x ∈ c → matches q x = false.
Proof.
  unfold findOne. intros H x Hx. apply list_elem_of_In in Hx.
  exact (find_none _ _ H _ Hx).
Qed.

(** ** changeName *)

(** What a successful [changeName] requires and writes. *)
Lemma changeName_returns (gameCode : Z) (cur new : string) (s s' : Store) (n : string) :
  changeName gameCode cur new s = (Return n, s') →
  n = new ∧ cur ≠ new ∧ new ≠ ""
  ∧ (∃ st, head (status (db s gameCode)) = Some st ∧ playing st = false)
  ∧ is_Some (findOne ("name", VStr cur) (players (db s gameCode)))
  ∧ s' = alterPlayers (updateOne ("name", VStr cur) ("name", VStr new)) gameCode s.
Proof.
  unfold changeName.
  case_bool_decide as H1; [discriminate|].
  case_bool_decide as H2; [discriminate|].
  destruct (head _) as [st|] eqn:Hst; [|discriminate].
  destruct (playing st) eqn:Hp; [discriminate|].
  destruct (findOne _ _) as [d|] eqn:Hf; [|discriminate].
  intros [= <- <-]. eauto 10.
Qed.

Lemma changeName_accepts (gameCode : Z) (cur new : string) (s : Store) (st : Status) :
  cur ≠ new → new ≠ "" →
  head (status (db s gameCode)) = Some st → playing st = false →
  is_Some (findOne ("name", VStr cur) (players (db s gameCode))) →
  changeName gameCode cur new s
  = (Return new, alterPlayers (updateOne ("name", VStr cur) ("name", VStr new)) gameCode s).
Proof.
  intros H1 H2 Hst Hp [d Hd]. unfold changeName.
  rewrite !bool_decide_eq_false_2 by done.
  by rewrite Hst, Hp, Hd.
Qed.

(** C4. [changeName] does not look for the new name in the roster: a
    rename to a name another player document already bears succeeds, and
    leaves two documents of that name in the game. *)
Theorem changeName_accepts_taken_name
    (gameCode : Z) (cur new : string) (s : Store) (st : Status) :
  cur ≠ new → new ≠ "" →
  head (status (db s gameCode)) = Some st → playing st = false →
  is_Some (findOne ("name", VStr cur) (players (db s gameCode))) →
  is_Some (findOne ("name", VStr new) (players (db s gameCode))) →
  ∃ s', changeName gameCode cur new s = (Return new, s')
        ∧ ¬ uniqueNames (players (db s' gameCode)).
Proof.
  intros H1 H2 Hst Hp Hcur [d' Hnew].
  eexists. split; [by eapply changeName_accepts|].
  rewrite db_alterPlayers_eq by reflexivity. simpl.
  destruct Hcur as [d Hd].
  destruct (updateOne_split _ ("name", VStr new) _ _ Hd) as (l1 & l2 & Hps & _ & ->).
  apply findOne_Some in Hd as [_ Hdn]. apply findOne_Some in Hnew as [Hin Hn'].
  simpl in *. rewrite Hps in Hin.
  unfold uniqueNames, playerNames. rewrite map_app. simpl.
  rewrite lookup_insert_eq. intros Hnd.
  apply NoDup_app in Hnd as (_ & Hdisj & Hnd2).
  apply NoDup_cons in Hnd2 as [Hnotin _].
  apply elem_of_app in Hin as [Hin|Hin].
  - apply (Hdisj (Some (VStr new))); [|left].
    rewrite <- Hn'. apply list_elem_of_In, in_map, list_elem_of_In, Hin.
  - apply elem_of_cons in Hin as [->|Hin]; [congruence|].
    apply Hnotin. rewrite <- Hn'.
    apply list_elem_of_In, in_map, list_elem_of_In, Hin.
Qed.

(** The frame of a successful [changeName]: one player document, the first
    of the current name, gets the new name; its other fields, the other
    player documents, the status collection, the registry and the other
    games stay as they were. *)
Lemma changeName_frame (gameCode : Z) (cur new : string) (s s' : Store) (n : string) :
  changeName gameCode cur new s = (Return n, s') →
  ∃ l1 d l2,
    players (db s gameCode) = l1 ++ d :: l2
    ∧ d !! "name" = Some (VStr cur)
    ∧ (∀ x, x ∈ l1 → x !! "name" ≠ Some (VStr cur))
    ∧ players (db s' gameCode) = l1 ++ <["name" := VStr new]> d :: l2
    ∧ (∀ f, f ≠ "name" → <["name" := VStr new]> d !! f = d !! f)
    ∧ status (db s' gameCode) = status (db s gameCode)
    ∧ games s' = games s
    ∧ (∀ code, code ≠ gameCode → dbs s' !! code = dbs s !! code).
Proof.
  intros H. apply changeName_returns in H as (-> & _ & _ & _ & [d Hd] & ->).
  destruct (updateOne_split _ ("name", VStr new) _ _ Hd) as (l1 & l2 & Hps & Hl1 & Hu).
  exists l1, d, l2. rewrite db_alterPlayers_eq by reflexivity. simpl.
  apply findOne_Some in Hd as [_ Hdn].
  repeat split; try done.
  - intros x Hx Hxn. apply Hl1 in Hx. unfold matches in Hx; simpl in Hx.
    by apply bool_decide_eq_false in Hx.
  - intros f Hf. by rewrite lookup_insert_ne.
  - intros code Hne. by apply db_alterPlayers_ne.
Qed.

(** After a successful rename to a name no player document of the game
    bears, the key that authenticated the player under the old name
    authenticates it under the new one. *)
Lemma changeName_keeps_key
    (gameCode : Z) (cur new key sid sid' : string) (s s' s1 : Store) (n : string) (r : AuthReply) :
  changeName gameCode cur new s = (Return n, s') →
  findOne ("name", VStr new) (players (db s gameCode)) = None →
  authUser sid {| ak_gameCode := gameCode; ak_name := cur; ak_key := key |} s
    = (Return r, s1) →
  ∃ s2, authUser sid' {| ak_gameCode := gameCode; ak_name := new; ak_key := key |} s'
        = (Return {| authenticated := true; ar_name := new; ar_gameCode := gameCode |}, s2).
Proof.
  intros Hc Hfree Ha.
  assert (∃ r s1, authUser sid {| ak_gameCode := gameCode; ak_name := cur; ak_key := key |} s
                  = (Return r, s1)) as Hr by eauto.
  apply authUser_returns in Hr as (Hg & p & Hp & Hk). simpl in *.
  destruct (changeName_frame _ _ _ _ _ _ Hc) as
    (l1 & d & l2 & Hps & Hdn & Hl1 & Hps' & Hother & _ & Hgames & _).
  assert (p = d) as ->.
  { rewrite Hps, findOne_skip in Hp.
    - unfold findOne, matches in Hp; simpl in Hp.
      rewrite bool_decide_eq_true_2 in Hp by done. congruence.
    - intros x Hx. apply bool_decide_eq_false. simpl. by apply Hl1. }
  assert (∃ r s2, authUser sid' {| ak_gameCode := gameCode; ak_name := new; ak_key := key |} s'
                  = (Return r, s2)) as (r' & s2 & H2).
  { apply authUser_returns. simpl. rewrite Hgames. split; [done|].
    exists (<["name" := VStr new]> d). split.
    - rewrite Hps', findOne_skip.
      + unfold findOne, matches; simpl.
        by rewrite lookup_insert_eq, bool_decide_eq_true_2.
      + intros x Hx. apply (findOne_None_matches _ _ Hfree).
        rewrite Hps. apply elem_of_app. by left.
    - by rewrite Hother. }
  exists s2. by rewrite H2, (authUser_reply _ _ _ _ _ H2).
Qed.

(** ** joinGame *)

Lemma joinGame_returns (name : string) (gameCode : Z) (key : string)
    (s s' : Store) (r : JoinReply) :
  joinGame name gameCode key s = (Return r, s') →
  gameCode ∈ games s
  ∧ (∃ st, head (status (db s gameCode)) = Some st ∧ playing st = false)
  ∧ findOne ("name", VStr name) (players (db s gameCode)) = None
  ∧ (length (players (db s gameCode)) < 10)%nat
  ∧ r = {| jr_gameCode := gameCode; jr_name := name; jr_key := key |}
  ∧ s' = insertPlayer
           (playerDoc name (Z.of_nat (length (players (db s gameCode))) + 1) (sha256 key))
           gameCode s.
Proof.
  unfold joinGame, gamesFindOne.
  case_bool_decide as Hg; simpl; [|discriminate].
  destruct (head _) as [st|] eqn:Hst; [|discriminate].
  case_bool_decide as Hp; simpl; [|discriminate].
  case_bool_decide as Hn; [discriminate|].
  case_bool_decide as Hl; [discriminate|].
  intros [= <- <-]. repeat split; eauto; [|lia].
  destruct (findOne _ _); [|reflexivity]. exfalso. eauto.
Qed.

Lemma joinGame_throws (name : string) (gameCode : Z) (key : string)
    (s s' : Store) (e : Exn) :
  joinGame name gameCode key s = (Throw e, s') → s' = s.
Proof.
  unfold joinGame.
  destruct (gamesFindOne _ _); simpl; [|by intros [= _ <-]].
  destruct (head _) as [st|]; [|by intros [= _ <-]].
  case_bool_decide; simpl; [|by intros [= _ <-]].
  case_bool_decide; [by intros [= _ <-]|].
  case_bool_decide; [by intros [= _ <-]|discriminate].
Qed.

(** A join under a name some player document of the game bears fails and
    writes nothing; it fails with the name-in-use message when the game is
    registered and not in progress. *)
Lemma joinGame_name_taken (name : string) (gameCode : Z) (key : string) (s : Store) :
  is_Some (findOne ("name", VStr name) (players (db s gameCode))) →
  ∃ e, joinGame name gameCode key s = (Throw e, s)
       ∧ (gameCode ∈ games s →
          (∃ st, head (status (db s gameCode)) = Some st ∧ playing st = false) →
          e = UserException
                "Your chosen name is in use by another player. Please use another name." "").
Proof.
  intros Hn. unfold joinGame, gamesFindOne.
  case_bool_decide as Hg; simpl; [|eexists; split; [reflexivity|done]].
  destruct (head _) as [st|] eqn:Hst;
    [|eexists; split; [reflexivity|]; by intros _ (? & [=] & _)].
  case_bool_decide as Hp; simpl;
    [|eexists; split; [reflexivity|]; intros _ (? & [= <-] & ?); done].
  rewrite bool_decide_eq_true_2 by done. eauto.
Qed.

(** ** Roster invariants *)

Section RosterInvariant.
Variable P : list Doc → Prop.
Hypothesis P_nil : P [].
Hypothesis P_join : ∀ l name key,
  P l → (length l < 10)%nat → findOne ("name", VStr name) l = None →
  P (l ++ [playerDoc name (Z.of_nat (length l) + 1) (sha256 key)]).
Hypothesis P_auth : ∀ l code sid,
  P l → P (updateOne ("code", VNum code) ("socketClientId", VStr sid) l).
Hypothesis P_remove : ∀ l n, P l → P (deleteOne ("name", VStr n) l).

Lemma rosters_db (s : Store) (code : Z) : rosters P s → P (players (db s code)).
Proof.
  intros H. unfold db. destruct (dbs s !! code) as [g|] eqn:Hg; simpl; eauto.
Qed.

Lemma rosters_alterPlayers (f : list Doc → list Doc) (code : Z) (s : Store) :
  (∀ l, P l → P (f l)) → rosters P s → rosters P (alterPlayers f code s).
Proof.
  intros Hf H c g. unfold alterPlayers; simpl. rewrite lookup_alter.
  case_decide as Hc; [subst c|by apply H].
  destruct (dbs s !! code) as [g0|] eqn:Hg; simpl; [|discriminate].
  intros [= <-]. simpl. apply Hf. eauto.
Qed.

Lemma rosters_dropDatabase (code : Z) (s : Store) :
  rosters P s → rosters P (dropDatabase code s).
Proof.
  intros H c g. unfold dropDatabase; simpl.
  intros Hc%lookup_delete_Some. destruct Hc as [_ Hc]. eauto.
Qed.

Lemma rosters_gamesDelete (code : option Z) (s : Store) :
  rosters P s → rosters P (gamesDelete code s).
Proof. intros H c g. apply H. Qed.

Lemma rosters_dropGame (f : Faults) (s : Store) (code : Z) :
  rosters P s → rosters P (dropGame f s code).
Proof.
  intros H. unfold dropGame.
  destruct (dropFails f code), (deleteFails f code);
    auto using rosters_dropDatabase, rosters_gamesDelete.
Qed.

Lemma rosters_createGame (now : Z) (draws : list Z) (s s' : Store) (o : outcome Z) :
  createGame now draws s = Some (o, s') → rosters P s → rosters P s'.
Proof.
  unfold createGame. destruct (_ <? _); [by intros [= _ <-]|].
  destruct (find _ _) as [code|]; [|discriminate].
  intros [= _ <-] H c g; simpl. rewrite lookup_insert.
  case_decide as Hc; [|by apply H]. intros [= <-]. simpl. by apply rosters_db.
Qed.

Lemma rosters_joinGame (name : string) (gameCode : Z) (key : string) (s : Store) :
  rosters P s → rosters P (joinGame name gameCode key s).2.
Proof.
  intros H. destruct (joinGame name gameCode key s) as [[r|e] s'] eqn:Hj; simpl.
  - apply joinGame_returns in Hj as (_ & _ & Hfree & Hlen & _ & ->).
    intros c g. unfold insertPlayer; simpl. rewrite lookup_insert.
    case_decide as Hc; [|by apply H]. intros [= <-]. simpl.
    apply P_join; [by apply rosters_db|done..].
  - by rewrite (joinGame_throws _ _ _ _ _ _ Hj).
Qed.

Lemma rosters_authUser (sid : string) (ak : AuthKey) (s : Store) :
  rosters P s → rosters P (authUser sid ak s).2.
Proof.
  intros H. unfold authUser.
  destruct (gamesFindOne _ _); simpl; [|done].
  destruct (findOne _ _); [|done].
  case_bool_decide; simpl; apply rosters_alterPlayers; auto.
Qed.

Lemma rosters_removePlayer (gameCode : Z) (p : RemovalRequest) (s : Store) :
  rosters P s → rosters P (removePlayer gameCode p s).2.
Proof.
  intros H. unfold removePlayer.
  destruct (head _) as [st|]; [|done].
  destruct (playing st); [done|].
  destruct (findOne _ _); [|done]. simpl.
  case_bool_decide.
  - apply rosters_gamesDelete, rosters_dropDatabase, rosters_alterPlayers; auto.
  - apply rosters_alterPlayers; auto.
Qed.

Lemma rosters_expiryTick (f : Faults) (production : bool) (now : Z) (s : Store) :
  rosters P s → rosters P (expiryTick f production now s).1.
Proof.
  intros H. unfold expiryTick.
  destruct (existsb _ _); [done|]. simpl.
  generalize (map fst (filter
    (fun g : Z * option Status => shouldDie (msToLive production) now g.2 = true)
    (map (fun code => (code, head (status (db s code)))) (games s)))).
  intros doomed. revert s H.
  induction doomed as [|c r IH]; intros s H; simpl; [done|].
  apply IH. by apply rosters_dropGame.
Qed.

Lemma rosters_changeName (gameCode : Z) (cur new : string) (s : Store) :
  (∀ l, P l → P (updateOne ("name", VStr cur) ("name", VStr new) l)) →
  rosters P s → rosters P (changeName gameCode cur new s).2.
Proof.
  intros P_rename H. unfold changeName.
  case_bool_decide; [done|]. case_bool_decide; [done|].
  destruct (head _) as [st|]; [|done].
  destruct (playing st); [done|].
  destruct (findOne _ _); [|done]. simpl.
  by apply rosters_alterPlayers.
Qed.

Lemma rosters_step (s : Store) (o : Op) :
  (∀ l cur new, P l → P (updateOne ("name", VStr cur) ("name", VStr new) l))
  ∨ noRename o →
  rosters P s → rosters P (step s o).
Proof.
  intros Hr H. destruct o; simpl.
  - destruct (createGame now draws s) as [[o s']|] eqn:Hc; [|done].
    by eapply rosters_createGame.
  - by apply rosters_joinGame.
  - by apply rosters_authUser.
  - destruct Hr as [Hr|[]]. apply rosters_changeName; auto.
  - by apply rosters_removePlayer.
  - by apply rosters_expiryTick.
Qed.

Lemma rosters_run (ops : list Op) (s : Store) :
  (∀ l cur new, P l → P (updateOne ("name", VStr cur) ("name", VStr new) l))
  ∨ Forall noRename ops →
  rosters P s → rosters P (run ops s).
Proof.
  unfold run. revert s. induction ops as [|o r IH]; intros s Hr H; simpl; [done|].
  apply IH.
  - destruct Hr as [Hr|Hr]; [by left|right]. by inversion Hr.
  - apply rosters_step; [|done].
    destruct Hr as [Hr|Hr]; [by left|right]. by inversion Hr.
Qed.
End RosterInvariant.

Lemma rosters_emptyStore (P : list Doc → Prop) : rosters P emptyStore.
Proof. intros c g. simpl. by rewrite lookup_empty. Qed.

Lemma playerDoc_lookup (name : string) (order : Z) (h : string) :
  playerDoc name order h !! "name" = Some (VStr name)
  ∧ playerDoc name order h !! "order" = Some (VNum order)
  ∧ playerDoc name order h !! "hashedKey" = Some (VStr h)
  ∧ playerDoc name order h !! "code" = None
  ∧ playerDoc name order h !! "socketClientId" = None
  ∧ playerDoc name order h !! "gameCode" = None.
Proof. unfold playerDoc. repeat split; by simplify_map_eq. Qed.

Lemma noCodeField_app (l1 l2 : list Doc) :
  noCodeField (l1 ++ l2) = noCodeField l1 && noCodeField l2.
Proof. unfold noCodeField. apply forallb_app. Qed.

Lemma noCodeField_updateOne (q : Filter) (f : string) (v : Value) (l : list Doc) :
  f ≠ "code" → noCodeField l = true → noCodeField (updateOne q (f, v) l) = true.
Proof.
  intros Hf. induction l as [|d r IH]; simpl; [done|].
  intros [Hd Hr]%andb_true_iff. destruct (matches q d); simpl.
  - rewrite Hr, andb_true_r. apply bool_decide_eq_true.
    apply bool_decide_eq_true in Hd. by rewrite lookup_insert_ne.
  - by rewrite Hd, IH.
Qed.

Lemma noCodeField_deleteOne (q : Filter) (l : list Doc) :
  noCodeField l = true → noCodeField (deleteOne q l) = true.
Proof.
  induction l as [|d r IH]; simpl; [done|].
  intros [Hd Hr]%andb_true_iff. destruct (matches q d); simpl; [done|].
  by rewrite Hd, IH.
Qed.

Lemma playerNames_updateOne_other (q : Filter) (f : string) (v : Value) (l : list Doc) :
  f ≠ "name" → playerNames (updateOne q (f, v) l) = playerNames l.
Proof.
  intros Hf. induction l as [|d r IH]; simpl; [done|].
  destruct (matches q d); simpl; [|by rewrite IH].
  by rewrite lookup_insert_ne.
Qed.

Lemma uniqueNames_deleteOne (q : Filter) (l : list Doc) :
  uniqueNames l → uniqueNames (deleteOne q l).
Proof.
  unfold uniqueNames. induction l as [|d r IH]; simpl; [done|].
  intros [Hd Hr]%NoDup_cons. destruct (matches q d); [done|].
  simpl. apply NoDup_cons. split; [|by apply IH].
  intros Hin. apply Hd. clear -Hin.
  induction r as [|x r IH]; simpl in *; [done|].
  destruct (matches q x); [by right|].
  simpl in Hin. apply elem_of_cons in Hin as [->|Hin]; [left|right; auto].
Qed.

Lemma uniqueNames_join (l : list Doc) (name : string) (order : Z) (h : string) :
  uniqueNames l → findOne ("name", VStr name) l = None →
  uniqueNames (l ++ [playerDoc name order h]).
Proof.
  unfold uniqueNames, playerNames. intros Hnd Hfree.
  rewrite map_app. simpl. apply NoDup_app. split; [done|]. split.
  - intros x Hx [->|[]%elem_of_nil]%elem_of_cons.
    destruct (playerDoc_lookup name order h) as [Hn _]. rewrite Hn in Hx.
    apply list_elem_of_In, in_map_iff in Hx as (d & Hd & Hin).
    by apply (findOne_None _ _ d Hfree); [apply list_elem_of_In|].
  - apply NoDup_singleton.
Qed.

(** Every operation keeps every roster at ten player documents or fewer. *)
Lemma rosterBound_run (ops : list Op) (s : Store) :
  rosterBound s → rosterBound (run ops s).
Proof.
  apply rosters_run.
  - simpl; lia.
  - intros l name key Hl Hlt _. rewrite length_app. simpl. lia.
  - intros l code sid Hl. by rewrite length_updateOne.
  - intros l n Hl. pose proof (length_deleteOne ("name", VStr n) l). lia.
  - left. intros l cur new Hl. by rewrite length_updateOne.
Qed.

(** Every operation keeps the [code] field out of the player documents. *)
Lemma noCodeField_run (ops : list Op) (s : Store) :
  rosters (fun l => noCodeField l = true) s →
  rosters (fun l => noCodeField l = true) (run ops s).
Proof.
  apply rosters_run.
  - done.
  - intros l name key Hl _ _. rewrite noCodeField_app, Hl. simpl.
    destruct (playerDoc_lookup name (Z.of_nat (length l) + 1) (sha256 key))
      as (_ & _ & _ & Hc & _).
    by rewrite Hc.
  - intros l code sid Hl. by apply noCodeField_updateOne.
  - intros l n Hl. by apply noCodeField_deleteOne.
  - left. intros l cur new Hl. by apply noCodeField_updateOne.
Qed.

(** So no store reached from the empty one has a [code] field in a player
    document. *)
Lemma noCodeField_reachable (ops : list Op) (code : Z) :
  noCodeField (players (db (run ops emptyStore) code)) = true.
Proof.
  apply (rosters_db (fun l => noCodeField l = true)); [done|].
  apply noCodeField_run, rosters_emptyStore.
Qed.

(** No operation other than [changeName] breaks the uniqueness of names. *)
Lemma uniqueNames_run_noRename (ops : list Op) (s : Store) :
  Forall noRename ops → rosters uniqueNames s → rosters uniqueNames (run ops s).
Proof.
  intros Hops. apply rosters_run.
  - apply NoDup_nil_2.
  - intros l name key Hl _ Hfree. by apply uniqueNames_join.
  - intros l code sid Hl. unfold uniqueNames.
    by rewrite playerNames_updateOne_other.
  - intros l n Hl. by apply uniqueNames_deleteOne.
  - by right.
Qed.

(** C5. A join to a game that holds ten player documents or more fails and
    leaves the store as it was, with the ten-players message once the
    checks that come first pass (game registered, not in progress, name
    free); a join that succeeds appends one player document to the game's
    roster, whose order is the former roster size plus one, and touches
    nothing else; and no sequence of operations, run one at a time, takes a
    store whose rosters hold at most ten documents to one with a roster of
    eleven. *)
Theorem joinGame_capacity (name : string) (gameCode : Z) (key : string) (s : Store) :
  ((10 ≤ length (players (db s gameCode)))%nat →
   ∃ e, joinGame name gameCode key s = (Throw e, s)
        ∧ (gameCode ∈ games s →
           (∃ st, head (status (db s gameCode)) = Some st ∧ playing st = false) →
           findOne ("name", VStr name) (players (db s gameCode)) = None →
           e = UserException "There are already 10 players in this game" ""))
  ∧ (∀ r s', joinGame name gameCode key s = (Return r, s') →
       let n := length (players (db s gameCode)) in
       players (db s' gameCode)
       = players (db s gameCode) ++ [playerDoc name (Z.of_nat n + 1) (sha256 key)]
       ∧ status (db s' gameCode) = status (db s gameCode)
       ∧ games s' = games s
       ∧ (∀ code, code ≠ gameCode → dbs s' !! code = dbs s !! code))
  ∧ (∀ ops, rosterBound s → rosterBound (run ops s)).
Proof.
  split; [|split].
  - intros Hfull. unfold joinGame, gamesFindOne.
    case_bool_decide as Hg; simpl; [|eexists; split; [reflexivity|done]].
    destruct (head _) as [st|] eqn:Hst;
      [|eexists; split; [reflexivity|]; by intros _ (? & [=] & _)].
    case_bool_decide as Hp; simpl;
      [|eexists; split; [reflexivity|]; intros _ (? & [= <-] & ?); done].
    case_bool_decide as Hn.
    + eexists; split; [reflexivity|]. intros _ _ Hfree.
      rewrite Hfree in Hn. by destruct Hn.
    + rewrite bool_decide_eq_true_2 by done. eauto.
  - intros r s' Hj. apply joinGame_returns in Hj as (_ & _ & _ & _ & _ & ->).
    simpl. rewrite db_insertPlayer_eq. simpl. repeat split; try done.
    intros code Hne. by rewrite lookup_insert_ne.
  - intros ops. apply rosterBound_run.
Qed.

(** ** removePlayer *)

Lemma gamesDeleteOne_other (q : option Z) (code : Z) (g : list Z) :
  q ≠ Some code → code ∈ g → code ∈ gamesDeleteOne q g.
Proof.
  intros Hq. induction g as [|c r IH]; simpl; [done|].
  intros [->|Hin]%elem_of_cons.
  - rewrite bool_decide_eq_false_2 by done. left.
  - case_bool_decide; [done|]. right. auto.
Qed.

Lemma gamesDeleteOne_NoDup (code : Z) (g : list Z) :
  NoDup g → code ∉ gamesDeleteOne (Some code) g.
Proof.
  induction g as [|c r IH]; simpl; [intros _; apply not_elem_of_nil|].
  intros [Hc Hr]%NoDup_cons. case_bool_decide as Heq.
  - by injection Heq as ->.
  - intros [->|Hin]%elem_of_cons; [done|]. by apply IH.
Qed.

(** Removing the only player document of a game that is not in progress:
    the game database is dropped, and the registry loses the first entry
    whose code is the [gameCode] of the request. *)
Lemma removePlayer_last (gameCode : Z) (p : RemovalRequest) (s : Store)
    (st : Status) (d : Doc) :
  head (status (db s gameCode)) = Some st → playing st = false →
  players (db s gameCode) = [d] → d !! "name" = Some (VStr (rr_name p)) →
  ∃ s', removePlayer gameCode p s
        = (Return {| playerToRemove := p;
                     rp_socketClientId := d !! "socketClientId" |}, s')
        ∧ dbs s' = delete gameCode (dbs s)
        ∧ games s' = gamesDeleteOne (rr_gameCode p) (games s).
Proof.
  intros Hst Hp Hps Hd.
  assert (matches ("name", VStr (rr_name p)) d = true) as Hm
    by by apply bool_decide_eq_true.
  assert (findOne ("name", VStr (rr_name p)) [d] = Some d) as Hf
    by (unfold findOne; simpl; by rewrite Hm).
  assert (deleteOne ("name", VStr (rr_name p)) [d] = []) as Hdel
    by (simpl; by rewrite Hm).
  unfold removePlayer. rewrite Hst, Hp, Hps, Hf.
  rewrite db_alterPlayers_eq by reflexivity. simpl.
  rewrite Hps, Hdel. simpl.
  eexists. split; [reflexivity|]. simpl. split; [|reflexivity].
  apply map_eq. intros c. rewrite !lookup_delete.
  case_decide; [done|]. by rewrite lookup_alter_ne.
Qed.

(** C6. When the last player document of a registered game is removed by a
    request whose [gameCode] is not that game's code (the field is absent,
    is not a number, or names another game), the game database is dropped
    but the registry keeps the game's entry: the next [authUser] for that
    code gets past the registry check and fails with the not-joined
    message. *)
Theorem removePlayer_last_keeps_registry_entry
    (gameCode : Z) (p : RemovalRequest) (s : Store) (st : Status) (d : Doc)
    (sid : string) (ak : AuthKey) :
  gameCode ∈ games s →
  head (status (db s gameCode)) = Some st → playing st = false →
  players (db s gameCode) = [d] → d !! "name" = Some (VStr (rr_name p)) →
  rr_gameCode p ≠ Some gameCode →
  ak_gameCode ak = gameCode →
  ∃ r s', removePlayer gameCode p s = (Return r, s')
          ∧ dbs s' !! gameCode = None
          ∧ gameCode ∈ games s'
          ∧ authUser sid ak s'
            = (Throw (UserException "You have not yet joined the game properly"
                                    "authError"), s').
Proof.
  intros Hg Hst Hp Hps Hd Hq Hak.
  destruct (removePlayer_last gameCode p s st d Hst Hp Hps Hd) as (s' & Hr & Hdbs & Hgames).
  exists {| playerToRemove := p; rp_socketClientId := d !! "socketClientId" |}, s'.
  assert (gameCode ∈ games s') as Hin.
  { rewrite Hgames. by apply gamesDeleteOne_other. }
  assert (dbs s' !! gameCode = None) as Hnone.
  { rewrite Hdbs. apply lookup_delete_eq. }
  repeat split; try done.
  unfold authUser, gamesFindOne. rewrite Hak.
  rewrite bool_decide_eq_true_2 by done. simpl.
  unfold db. by rewrite Hnone.
Qed.

(** When the request carries the game's own code and the registry lists
    the code once, the game is gone from the registry too, and the next
    [authUser] for that code fails with the does-not-exist message. *)
Lemma removePlayer_last_destroys
    (gameCode : Z) (p : RemovalRequest) (s : Store) (st : Status) (d : Doc)
    (sid : string) (ak : AuthKey) :
  NoDup (games s) →
  head (status (db s gameCode)) = Some st → playing st = false →
  players (db s gameCode) = [d] → d !! "name" = Some (VStr (rr_name p)) →
  rr_gameCode p = Some gameCode →
  ak_gameCode ak = gameCode →
  ∃ r s', removePlayer gameCode p s = (Return r, s')
          ∧ dbs s' !! gameCode = None
          ∧ (gameCode ∉ games s')
          ∧ authUser sid ak s'
            = (Throw (UserException "The game you are trying to enter does not exist"
                                    "authError"), s').
Proof.
  intros Hnd Hst Hp Hps Hd Hq Hak.
  destruct (removePlayer_last gameCode p s st d Hst Hp Hps Hd) as (s' & Hr & Hdbs & Hgames).
  exists {| playerToRemove := p; rp_socketClientId := d !! "socketClientId" |}, s'.
  assert (gameCode ∉ games s') as Hin.
  { rewrite Hgames, Hq. by apply gamesDeleteOne_NoDup. }
  repeat split; try done.
  - rewrite Hdbs. apply lookup_delete_eq.
  - unfold authUser, gamesFindOne. rewrite Hak.
    by rewrite bool_decide_eq_false_2.
Qed.

(** ** The sweep *)

Lemma foldl_dropGame (f : Faults) (doomed : list Z) (s : Store) :
  games (foldl (dropGame f) s doomed) = foldl (gamesAfter f) (games s) doomed
  ∧ dbs (foldl (dropGame f) s doomed) = foldl (dbsAfter f) (dbs s) doomed.
Proof.
  revert s. induction doomed as [|c r IH]; intros s; simpl; [done|].
  destruct (IH (dropGame f s c)) as [-> ->].
  unfold dropGame, gamesAfter, dbsAfter.
  by destruct (dropFails f c), (deleteFails f c).
Qed.

Lemma doomed_filter (ttl now : Z) (h : Z → option Status) (g : list Z) :
  map fst (filter (fun x : Z * option Status => shouldDie ttl now x.2 = true)
                  (map (fun code => (code, h code)) g))
  = filter (fun code => shouldDie ttl now (h code) = true) g.
Proof.
  induction g as [|c r IH]; simpl; [done|].
  rewrite !filter_cons. simpl. case_decide; simpl; by rewrite IH.
Qed.

Lemma expiryTick_reads_ok (f : Faults) (production : bool) (now : Z) (s : Store) :
  existsb (statusReadFails f) (games s) = false →
  (expiryTick f production now s).1
  = foldl (dropGame f) s (filter (fun code => dies production now s code = true) (games s)).
Proof.
  intros Hr. unfold expiryTick. rewrite Hr. simpl.
  by rewrite (doomed_filter _ _ (fun code => head (status (db s code)))).
Qed.

Lemma foldl_gamesAfter_head (f : Faults) (doomed g : list Z) (x : Z) :
  (∀ c, c ∈ doomed → c = x → deleteFails f c = true) →
  foldl (gamesAfter f) (x :: g) doomed = x :: foldl (gamesAfter f) g doomed.
Proof.
  revert g. induction doomed as [|c r IH]; intros g Hx; simpl; [done|].
  assert (gamesAfter f (x :: g) c = x :: gamesAfter f g c) as ->.
  { unfold gamesAfter. destruct (deleteFails f c) eqn:Hc; [done|]. simpl.
    rewrite bool_decide_eq_false_2; [done|].
    intros [= ->]. rewrite Hx in Hc; [done|left|done]. }
  apply IH. intros c' Hc'. apply Hx. by right.
Qed.

(** The registry after the drop commands: the entries that should die and
    whose delete command does not fail are gone, the others stay, in
    order. *)
Lemma foldl_gamesAfter_filter (f : Faults) (die : Z → bool) (g : list Z) :
  foldl (gamesAfter f) g (filter (fun c => die c = true) g)
  = filter (fun c => ¬ (die c = true ∧ deleteFails f c = false)) g.
Proof.
  induction g as [|x r IH]; simpl; [done|].
  destruct (die x) eqn:Hx; [destruct (deleteFails f x) eqn:Hf|].
  - rewrite (filter_cons_True (fun c => die c = true)) by done.
    rewrite filter_cons_True by (intros [_ ?]; congruence).
    simpl. unfold gamesAfter at 2. rewrite Hf.
    rewrite foldl_gamesAfter_head by (by intros c _ ->). by rewrite IH.
  - rewrite (filter_cons_True (fun c => die c = true)) by done.
    rewrite filter_cons_False by (intros H; by apply H).
    simpl. unfold gamesAfter at 2. rewrite Hf. simpl.
    rewrite bool_decide_eq_true_2 by done. by rewrite IH.
  - rewrite (filter_cons_False (fun c => die c = true)) by congruence.
    rewrite filter_cons_True by (intros [? _]; congruence).
    rewrite foldl_gamesAfter_head, IH; [done|].
    intros c Hc ->. apply list_elem_of_filter in Hc as [Hc _]. congruence.
Qed.

Lemma foldl_dbsAfter_lookup (f : Faults) (doomed : list Z) (m : gmap Z GameDb) (code : Z) :
  foldl (dbsAfter f) m doomed !! code
  = if decide (code ∈ doomed ∧ dropFails f code = false) then None else m !! code.
Proof.
  revert m. induction doomed as [|c r IH]; intros m.
  - destruct (decide _) as [[[]%elem_of_nil _]|_]. done.
  - change (foldl (dbsAfter f) m (c :: r)) with (foldl (dbsAfter f) (dbsAfter f m c) r).
    rewrite IH.
    destruct (decide (code ∈ r ∧ dropFails f code = false)) as [[Hin Hf]|Hn].
    + rewrite decide_True; [done|]. split; [by right|done].
    + unfold dbsAfter. destruct (decide (code = c)) as [->|Hne].
      * destruct (dropFails f c) eqn:Hf.
        -- rewrite decide_False; [done|]. intros [_ ?]; congruence.
        -- rewrite lookup_delete_eq, decide_True; [done|]. split; [left|done].
      * assert ((if dropFails f c then m else delete c m) !! code = m !! code) as ->.
        { destruct (dropFails f c); [done|]. by rewrite lookup_delete_ne. }
        rewrite decide_False; [done|].
        intros [[->|Hin]%elem_of_cons Hf]; [done|]. by apply Hn.
Qed.

(** The store a sweep without read failures leaves behind. *)
Lemma expiryTick_store (f : Faults) (production : bool) (now : Z) (s : Store) :
  existsb (statusReadFails f) (games s) = false →
  let s' := (expiryTick f production now s).1 in
  games s' = filter (fun c => ¬ (dies production now s c = true ∧ deleteFails f c = false))
                    (games s)
  ∧ ∀ code, dbs s' !! code
            = if decide (code ∈ games s ∧ dies production now s code = true
                         ∧ dropFails f code = false)
              then None else dbs s !! code.
Proof.
  intros Hr. simpl. rewrite expiryTick_reads_ok by done.
  destruct (foldl_dropGame f
    (filter (fun code => dies production now s code = true) (games s)) s) as [-> ->].
  split.
  - apply foldl_gamesAfter_filter.
  - intros code. rewrite foldl_dbsAfter_lookup.
    destruct (decide (code ∈ games s ∧ dies production now s code = true
                      ∧ dropFails f code = false)) as [(H1 & H2 & H3)|Hn].
    + rewrite decide_True; [done|]. split; [|done]. by apply list_elem_of_filter.
    + rewrite decide_False; [done|].
      intros [[H2 H1]%list_elem_of_filter H3]. by apply Hn.
Qed.

Lemma dies_iff (production : bool) (now : Z) (s : Store) (code : Z) :
  dies production now s code = true
  ↔ head (status (db s code)) = None
    ∨ ∃ st, head (status (db s code)) = Some st
            ∧ lastSignificantChange st < now - msToLive production.
Proof.
  unfold dies, shouldDie. destruct (head _) as [st|].
  - rewrite Z.ltb_lt. split.
    + intros H. right. exists st. split; [done|lia].
    + intros [[=]|(st' & [= <-] & H)]. lia.
  - split; [by left|done].
Qed.

(** C7. One sweep without store failures, at time [now]: a registered game
    whose status document is missing, or whose [lastSignificantChange] is
    older than [now] minus the time to live, is gone afterwards, registry
    entry and database; a registered game whose [lastSignificantChange] is
    within the time to live keeps its registry entry and its database as
    they were; and the registry afterwards is the registry before without
    the games that should die. *)
Theorem expiryTick_destroys_exactly (production : bool) (now : Z) (s : Store) (code : Z) :
  code ∈ games s →
  let s' := (expiryTick noFaults production now s).1 in
  ((head (status (db s code)) = None
    ∨ (∃ st, head (status (db s code)) = Some st
             ∧ lastSignificantChange st < now - msToLive production))
   → (code ∉ games s') ∧ dbs s' !! code = None)
  ∧ ((∃ st, head (status (db s code)) = Some st
            ∧ now - msToLive production ≤ lastSignificantChange st)
     → code ∈ games s' ∧ dbs s' !! code = dbs s !! code)
  ∧ games s' = filter (fun c => dies production now s c ≠ true) (games s).
Proof.
  intros Hin. simpl.
  destruct (expiryTick_store noFaults production now s) as [Hg Hd].
  { apply not_true_is_false. intros (c & _ & [=])%existsb_exists. }
  simpl in Hg, Hd.
  assert (games (expiryTick noFaults production now s).1
          = filter (fun c => dies production now s c ≠ true) (games s)) as Hg'.
  { rewrite Hg. apply list_filter_iff. intros c. split.
    - intros H Hc. by apply H.
    - intros H [Hc _]. by apply H. }
  split; [|split; [|done]].
  - intros Hdie%dies_iff. split.
    + rewrite Hg'. intros [Hc _]%list_elem_of_filter. by apply Hc.
    + rewrite Hd, decide_True; done.
  - intros (st & Hst & Hts).
    assert (dies production now s code ≠ true) as Hlive.
    { intros [Hc|(st' & Hst' & Hlt)]%dies_iff; [congruence|].
      rewrite Hst in Hst'. injection Hst' as <-. lia. }
    split.
    + rewrite Hg'. by apply list_elem_of_filter.
    + rewrite Hd, decide_False; [done|]. by intros (_ & ? & _).
Qed.

(** C8. A status read that rejects aborts the whole sweep: nothing is
    dropped and the one failure is logged. When every status read succeeds,
    a game that should die and whose own drop commands do not reject is
    gone afterwards, whatever happens to the drop commands of the other
    games; and the sweep logs an error exactly when some command it issued
    rejected. *)
Theorem expiryTick_failures (f : Faults) (production : bool) (now : Z) (s : Store) :
  ((∃ c, c ∈ games s ∧ statusReadFails f c = true) →
   expiryTick f production now s = (s, [LogError]))
  ∧ ((∀ c, c ∈ games s → statusReadFails f c = false) →
     let s' := (expiryTick f production now s).1 in
     (∀ code, code ∈ games s → dies production now s code = true →
              dropFails f code = false → deleteFails f code = false →
              (code ∉ games s') ∧ dbs s' !! code = None)
     ∧ (LogError ∈ (expiryTick f production now s).2
        ↔ ∃ c, c ∈ games s ∧ dies production now s c = true
               ∧ (dropFails f c = true ∨ deleteFails f c = true))).
Proof.
  split.
  - intros (c & Hc & Hf). unfold expiryTick.
    assert (existsb (statusReadFails f) (games s) = true) as ->; [|done].
    apply existsb_exists. exists c. split; [by apply list_elem_of_In|done].
  - intros Hreads.
    assert (existsb (statusReadFails f) (games s) = false) as Hr.
    { apply not_true_is_false. intros (c & Hc & Hf)%existsb_exists.
      apply list_elem_of_In, Hreads in Hc. congruence. }
    destruct (expiryTick_store f production now s Hr) as [Hg Hd].
    simpl in *. split.
    + intros code Hin Hdie Hdrop Hdel. split.
      * rewrite Hg. intros [Hc _]%list_elem_of_filter. by apply Hc.
      * rewrite Hd, decide_True; done.
    + unfold expiryTick. rewrite Hr. simpl.
      rewrite (doomed_filter _ _ (fun code => head (status (db s code)))).
      rewrite elem_of_app. split.
      * intros [Hlog|Hlog].
        -- apply list_elem_of_In, in_map_iff in Hlog as (? & [=] & _).
        -- destruct (existsb (fun c => dropFails f c || deleteFails f c) _) eqn:He;
             [|by apply elem_of_nil in Hlog].
           apply existsb_exists in He as (c & [Hdie Hc]%list_elem_of_In%list_elem_of_filter
                                            & Hf%orb_true_iff).
           eauto.
      * intros (c & Hc & Hdie & Hf). right.
        assert (existsb (fun c => dropFails f c || deleteFails f c)
                  (filter (fun code => shouldDie (msToLive production) now
                                         (head (status (db s code))) = true) (games s))
                = true) as ->; [|left].
        apply existsb_exists. exists c. split.
        -- by apply list_elem_of_In, list_elem_of_filter.
        -- by apply orb_true_iff.
Qed.

(** ** The status push *)

Lemma getGameStatus_returns (readFails : bool) (gameDb : GameDb) :
  ∃ g, getGameStatus readFails gameDb = Return g.
Proof.
  unfold getGameStatus. destruct (getGameStatus_try readFails gameDb); eauto.
Qed.

(** C9. The status push always emits one [gameStatus] event to the room
    of the game and never throws. With the reads succeeding and [playing]
    false the event carries [{playing: false, players}] with one entry per
    player document, in order; with [playing] true the event carries
    nothing ([undefined]); when a read fails or the status document is
    missing it carries the opaque error. *)
Theorem pushStatus_cases (readFails : bool) (gameCode : Z) (s : Store) :
  (∃ g, getGameStatus readFails (db s gameCode) = Return g
        ∧ pushStatus readFails gameCode s = [ToRoom gameCode (GameStatusEvent g)])
  ∧ (∀ st, readFails = false →
           head (status (db s gameCode)) = Some st → playing st = false →
           pushStatus readFails gameCode s
           = [ToRoom gameCode
                (GameStatusEvent (Lobby (map playerView (players (db s gameCode)))))])
  ∧ (∀ st, readFails = false →
           head (status (db s gameCode)) = Some st → playing st = true →
           pushStatus readFails gameCode s = [ToRoom gameCode (GameStatusEvent Undefined)])
  ∧ (readFails = true ∨ head (status (db s gameCode)) = None →
     pushStatus readFails gameCode s
     = [ToRoom gameCode (GameStatusEvent (ErrorStatus "An unexpected error occurred"))]).
Proof.
  unfold pushStatus, getGameStatus, getGameStatus_try.
  repeat split.
  - destruct readFails; [eauto|].
    destruct (head _) as [st|]; [|eauto]. destruct (playing st); eauto.
  - intros st -> -> ->. done.
  - intros st -> -> ->. done.
  - intros [->| ->]; [done|]. by destruct readFails.
Qed.

(** ** The properties on the example stores *)

Lemma authUser_failure_changes_nothing_witness :
  noCodeField (players (db aliceAlone 5)) = true
  ∧ authUser "conn-1" wrongKeyForAlice aliceAlone
    = (Throw (UserException "Unauthorized" "authError"), aliceAlone)
  ∧ ∀ code, players (db aliceAlone code) = players (db aliceAlone code).
Proof.
  assert (noCodeField (players (db aliceAlone (ak_gameCode wrongKeyForAlice))) = true)
    as Hwf by (vm_compute; reflexivity).
  assert (authUser "conn-1" wrongKeyForAlice aliceAlone
          = (Throw (UserException "Unauthorized" "authError"), aliceAlone))
    as Hfail by (vm_compute; reflexivity).
  split; [exact Hwf|]. split; [exact Hfail|].
  exact (proj2 (authUser_failure_changes_nothing _ _ _ _ _ Hwf Hfail)).
Defined.

Lemma authUser_succeeds_iff_witness :
  uniqueNames (players (db aliceAlone 5))
  ∧ (∃ s', authUser "conn-1" rightKeyForAlice aliceAlone
           = (Return {| authenticated := true; ar_name := "Alice"; ar_gameCode := 5 |}, s')).
Proof.
  assert (uniqueNames (players (db aliceAlone (ak_gameCode rightKeyForAlice)))) as Huniq
    by by_evaluation.
  split; [exact Huniq|].
  apply (proj1 (authUser_succeeds_iff "conn-1" rightKeyForAlice aliceAlone Huniq)).
  split; [by_evaluation|].
  exists (playerDoc "Alice" 1 (sha256 keyAlice)).
  split; [by_evaluation|]. split; vm_compute; reflexivity.
Defined.

Lemma authUser_success_binds_nothing_witness :
  noCodeField (players (db aliceAlone 5)) = true
  ∧ (authUser "conn-1" rightKeyForAlice aliceAlone).1
    = Return {| authenticated := true; ar_name := "Alice"; ar_gameCode := 5 |}
  ∧ (authUser "conn-1" rightKeyForAlice aliceAlone).2 = aliceAlone
  ∧ findOne ("name", VStr "Alice")
            (players (db (authUser "conn-1" rightKeyForAlice aliceAlone).2 5))
    = Some (playerDoc "Alice" 1 (sha256 keyAlice))
  ∧ playerDoc "Alice" 1 (sha256 keyAlice) !! "socketClientId" = None.
Proof.
  assert (noCodeField (players (db aliceAlone (ak_gameCode rightKeyForAlice))) = true)
    as Hwf by (vm_compute; reflexivity).
  assert (authUser "conn-1" rightKeyForAlice aliceAlone
          = (Return {| authenticated := true; ar_name := "Alice"; ar_gameCode := 5 |},
             (authUser "conn-1" rightKeyForAlice aliceAlone).2))
    as Hok by (vm_compute; reflexivity).
  destruct (authUser_success_binds_nothing _ _ _ _ _ Hwf Hok) as [Hsame Hfound].
  split; [exact Hwf|]. split; [vm_compute; reflexivity|]. split; [exact Hsame|].
  split; [|apply playerDoc_lookup].
  apply Hfound. vm_compute; reflexivity.
Defined.

Lemma changeName_accepts_taken_name_witness :
  uniqueNames (players (db aliceAndBob 5))
  ∧ ∃ s', changeName 5 "Bob" "Alice" aliceAndBob = (Return "Alice", s')
          ∧ ¬ uniqueNames (players (db s' 5)).
Proof.
  split; [by_evaluation|].
  apply (changeName_accepts_taken_name 5 "Bob" "Alice" aliceAndBob
           {| playing := false; lastSignificantChange := 1000 |}).
  - discriminate.
  - discriminate.
  - vm_compute; reflexivity.
  - reflexivity.
  - by_evaluation.
  - by_evaluation.
Defined.

Lemma joinGame_capacity_witness :
  length (players (db tenPlayers 5)) = 10%nat
  ∧ joinGame "Eve" 5 keyBob tenPlayers
    = (Throw (UserException "There are already 10 players in this game" ""), tenPlayers)
  ∧ (∀ s', joinGame "Bob" 5 keyBob aliceAlone
           = (Return {| jr_gameCode := 5; jr_name := "Bob"; jr_key := keyBob |}, s') →
           players (db s' 5)
           = players (db aliceAlone 5) ++ [playerDoc "Bob" 2 (sha256 keyBob)])
  ∧ rosterBound (run [OpJoinGame "Eve" 5 keyBob] tenPlayers).
Proof.
  assert (10 ≤ length (players (db tenPlayers 5)))%nat as Hfull
    by (vm_compute; lia).
  destruct (proj1 (joinGame_capacity "Eve" 5 keyBob tenPlayers) Hfull) as (e & He & Hmsg).
  split; [vm_compute; reflexivity|]. split; [|split].
  - rewrite He. f_equal. f_equal. apply Hmsg.
    + by_evaluation.
    + exists {| playing := false; lastSignificantChange := 1000 |}.
      split; vm_compute; reflexivity.
    + vm_compute; reflexivity.
  - intros s' Hj.
    exact (proj1 (proj1 (proj2 (joinGame_capacity "Bob" 5 keyBob aliceAlone)) _ _ Hj)).
  - apply (proj2 (proj2 (joinGame_capacity "Eve" 5 keyBob tenPlayers))).
    apply (rosterBound_run _ emptyStore), rosters_emptyStore.
Defined.

Lemma removePlayer_last_keeps_registry_entry_witness :
  players (db aliceAlone 5) = [playerDoc "Alice" 1 (sha256 keyAlice)]
  ∧ ∃ r s', removePlayer 5 aliceWithoutGameCode aliceAlone = (Return r, s')
            ∧ dbs s' !! 5 = None
            ∧ 5 ∈ games s'
            ∧ authUser "conn-1" rightKeyForAlice s'
              = (Throw (UserException "You have not yet joined the game properly"
                                      "authError"), s').
Proof.
  split; [vm_compute; reflexivity|].
  apply (removePlayer_last_keeps_registry_entry 5 aliceWithoutGameCode aliceAlone
           {| playing := false; lastSignificantChange := 1000 |}
           (playerDoc "Alice" 1 (sha256 keyAlice))).
  - by_evaluation.
  - vm_compute; reflexivity.
  - reflexivity.
  - vm_compute; reflexivity.
  - vm_compute; reflexivity.
  - discriminate.
  - reflexivity.
Defined.

Lemma expiryTick_destroys_exactly_witness :
  games twoIdleGames = [1; 2]
  ∧ games (expiryTick noFaults false 1800001 twoIdleGames).1 = []
  ∧ games (expiryTick noFaults false 1800000 twoIdleGames).1 = [1; 2]
  ∧ dbs (expiryTick noFaults false 1800001 twoIdleGames).1 !! 2 = None
  ∧ dbs (expiryTick noFaults false 1800000 twoIdleGames).1 !! 2 = dbs twoIdleGames !! 2.
Proof.
  assert (2 ∈ games twoIdleGames) as Hin by by_evaluation.
  destruct (expiryTick_destroys_exactly false 1800001 twoIdleGames 2 Hin)
    as (Hdead & _ & _).
  destruct (expiryTick_destroys_exactly false 1800000 twoIdleGames 2 Hin)
    as (_ & Hlive & _).
  split; [vm_compute; reflexivity|]. split; [vm_compute; reflexivity|].
  split; [vm_compute; reflexivity|]. split.
  - apply Hdead. right. exists {| playing := false; lastSignificantChange := 0 |}.
    split; [vm_compute; reflexivity|]. vm_compute; reflexivity.
  - apply Hlive. exists {| playing := false; lastSignificantChange := 0 |}.
    split; [vm_compute; reflexivity|]. vm_compute. discriminate.
Defined.

(** C8, as stated, fails: with both games idle past the time to live and
    the status read of game 1 rejecting, game 2, whose status is readable
    and expired, is still there after the sweep. *)
Lemma expiryTick_read_failure_spares_expired :
  statusReadFails readOfGame1Fails 2 = false
  ∧ dies false 1800001 twoIdleGames 2 = true
  ∧ expiryTick readOfGame1Fails false 1800001 twoIdleGames = (twoIdleGames, [LogError])
  ∧ 2 ∈ games (expiryTick readOfGame1Fails false 1800001 twoIdleGames).1
  ∧ is_Some (dbs (expiryTick readOfGame1Fails false 1800001 twoIdleGames).1 !! 2).
Proof.
  split; [reflexivity|]. split; [vm_compute; reflexivity|].
  split; [vm_compute; reflexivity|]. split; by_evaluation.
Qed.

Lemma expiryTick_failures_witness :
  expiryTick readOfGame1Fails false 1800001 twoIdleGames = (twoIdleGames, [LogError])
  ∧ (2 ∉ games (expiryTick dropOfGame1Fails false 1800001 twoIdleGames).1)
  ∧ dbs (expiryTick dropOfGame1Fails false 1800001 twoIdleGames).1 !! 2 = None
  ∧ games (expiryTick dropOfGame1Fails false 1800001 twoIdleGames).1 = [1]
  ∧ LogError ∈ (expiryTick dropOfGame1Fails false 1800001 twoIdleGames).2.
Proof.
  destruct (expiryTick_failures readOfGame1Fails false 1800001 twoIdleGames) as [Habort _].
  destruct (expiryTick_failures dropOfGame1Fails false 1800001 twoIdleGames) as [_ Hiso].
  destruct Hiso as [Hgone Hlog]; [done|].
  split.
  - apply Habort. exists 1. split; [by_evaluation|reflexivity].
  - destruct (Hgone 2) as [H1 H2];
      [by_evaluation|vm_compute; reflexivity|reflexivity|reflexivity|].
    split; [exact H1|]. split; [exact H2|]. split; [vm_compute; reflexivity|].
    apply Hlog. exists 1. split; [by_evaluation|].
    split; [vm_compute; reflexivity|]. by left.
Defined.

(** C9, as stated, fails: while a round is in progress the push still
    emits a [gameStatus] event to the room, one that carries nothing. *)
Lemma pushStatus_emits_while_playing :
  head (status (db roundInProgress 5))
  = Some {| playing := true; lastSignificantChange := 1000 |}
  ∧ pushStatus false 5 roundInProgress = [ToRoom 5 (GameStatusEvent Undefined)]
  ∧ pushStatus false 5 roundInProgress ≠ []
  ∧ (onAuthRequest false "conn-1" rightKeyForAlice None roundInProgress).2
    = [ToRoom 5 (GameStatusEvent Undefined)].
Proof.
  split; [vm_compute; reflexivity|]. split; [vm_compute; reflexivity|].
  split; [vm_compute; discriminate|]. vm_compute; reflexivity.
Qed.

Lemma pushStatus_cases_witness :
  pushStatus false 5 aliceAndBob
  = [ToRoom 5 (GameStatusEvent (Lobby
       [{| pv_name := Some (VStr "Alice"); pv_order := Some (VNum 1); pv_gameCode := None |};
        {| pv_name := Some (VStr "Bob"); pv_order := Some (VNum 2); pv_gameCode := None |}]))]
  ∧ pushStatus false 5 roundInProgress = [ToRoom 5 (GameStatusEvent Undefined)]
  ∧ pushStatus true 5 aliceAndBob
    = [ToRoom 5 (GameStatusEvent (ErrorStatus "An unexpected error occurred"))].
Proof.
  destruct (pushStatus_cases false 5 aliceAndBob) as (_ & Hlobby & _ & _).
  destruct (pushStatus_cases false 5 roundInProgress) as (_ & _ & Hplaying & _).
  destruct (pushStatus_cases true 5 aliceAndBob) as (_ & _ & _ & Herr).
  split; [|split].
  - rewrite (Hlobby {| playing := false; lastSignificantChange := 1000 |});
      vm_compute; reflexivity.
  - apply (Hplaying {| playing := true; lastSignificantChange := 1000 |});
      vm_compute; reflexivity.
  - apply Herr. by left.
Defined.

(** C10. Bob renames himself to Alice, a name in use: the rename
    succeeds, and the key that authenticated Bob before no longer does
    under the new name, because the lookup by name finds Alice's document
    first. *)
Theorem changeName_collision_locks_out :
  (authUser "conn-2" {| ak_gameCode := 5; ak_name := "Bob"; ak_key := keyBob |}
            aliceAndBob).1
  = Return {| authenticated := true; ar_name := "Bob"; ar_gameCode := 5 |}
  ∧ (changeName 5 "Bob" "Alice" aliceAndBob).1 = Return "Alice"
  ∧ playerNames (players (db (changeName 5 "Bob" "Alice" aliceAndBob).2 5))
    = [Some (VStr "Alice"); Some (VStr "Alice")]
  ∧ (authUser "conn-2" {| ak_gameCode := 5; ak_name := "Alice"; ak_key := keyBob |}
              (changeName 5 "Bob" "Alice" aliceAndBob).2).1
    = Throw (UserException "Unauthorized" "authError").
Proof. repeat split; vm_compute; reflexivity. Qed.

(** ** A session from creation to destruction

    Create a game, join Alice, authenticate her, push the status, join
    Alice again, then remove her with a request that carries the game's
    code: the game is gone and her credentials no longer find it. *)
Example session_scenario :
  createGame 1000 [5] emptyStore
  = Some (Return 5, run [OpCreateGame 1000 [5]] emptyStore)
  ∧ (joinGame "Alice" 5 keyAlice (run [OpCreateGame 1000 [5]] emptyStore)).1
    = Return {| jr_gameCode := 5; jr_name := "Alice"; jr_key := keyAlice |}
  ∧ (authUser "conn-1" rightKeyForAlice aliceAlone).1
    = Return {| authenticated := true; ar_name := "Alice"; ar_gameCode := 5 |}
  ∧ pushStatus false 5 aliceAlone
    = [ToRoom 5 (GameStatusEvent (Lobby
         [{| pv_name := Some (VStr "Alice"); pv_order := Some (VNum 1);
             pv_gameCode := None |}]))]
  ∧ joinGame "Alice" 5 keyBob aliceAlone
    = (Throw (UserException
         "Your chosen name is in use by another player. Please use another name." ""),
       aliceAlone)
  ∧ (removePlayer 5 {| rr_name := "Alice"; rr_gameCode := Some 5 |} aliceAlone).2
    = emptyStore
  ∧ authUser "conn-1" rightKeyForAlice emptyStore
    = (Throw (UserException "The game you are trying to enter does not exist" "authError"),
       emptyStore).
Proof. repeat split; vm_compute; reflexivity. Qed.

(** * Further properties *)

(** ** createGame *)

Lemma createGame_Some (now : Z) (draws : list Z) (s s' : Store) (o : outcome Z) :
  createGame now draws s = Some (o, s') →
  (100000 < Z.of_nat (length (games s))
   ∧ o = Throw (JsError "There are too many games in progress to start a new one.")
   ∧ s' = s)
  ∨ (Z.of_nat (length (games s)) ≤ 100000
     ∧ ∃ code, o = Return code
               ∧ find (fun c => negb (gamesFindOne c (games s))) draws = Some code
               ∧ s' = {| games := games s ++ [code];
                         dbs := dbs (insertStatus
                                       {| playing := false; lastSignificantChange := now |}
                                       code s) |}).
Proof.
  unfold createGame. destruct (100000 <? _) eqn:Hcap.
  - intros [= <- <-]. left. apply Z.ltb_lt in Hcap. done.
  - apply Z.ltb_ge in Hcap.
    destruct (find _ draws) as [code|] eqn:Hf; [|discriminate].
    intros [= <- <-]. right. eauto.
Qed.

Lemma createGame_returns_aux (now : Z) (draws : list Z) (s s' : Store) (code : Z) :
  createGame now draws s = Some (Return code, s') →
  code ∈ draws
  ∧ (code ∉ games s)
  ∧ games s' = games s ++ [code]
  ∧ status (db s' code)
    = status (db s code) ++ [{| playing := false; lastSignificantChange := now |}]
  ∧ players (db s' code) = players (db s code)
  ∧ ∀ code', code' ≠ code → dbs s' !! code' = dbs s !! code'.
Proof.
  intros H. apply createGame_Some in H as [(_ & [=] & _)|(_ & c & [= <-] & Hf & ->)].
  apply find_some in Hf as [Hin Hfree].
  apply negb_true_iff, bool_decide_eq_false in Hfree.
  split; [by apply list_elem_of_In|]. split; [done|]. split; [done|].
  unfold db at 1 3; simpl. rewrite lookup_insert_eq. simpl.
  repeat split. intros code' Hne. by rewrite lookup_insert_ne.
Qed.

(** X1. A code returned by [createGame] is one of the draws and was not
    registered; it is appended to the registry, a fresh status document
    [{playing: false, lastSignificantChange: now}] is appended to the
    status collection of its database, and the player documents of that
    database and all other databases are left as they were. *)
Theorem createGame_returns (now : Z) (draws : list Z) (s s' : Store) (code : Z) :
  createGame now draws s = Some (Return code, s') →
  code ∈ draws
  ∧ (code ∉ games s)
  ∧ games s' = games s ++ [code]
  ∧ status (db s' code)
    = status (db s code) ++ [{| playing := false; lastSignificantChange := now |}]
  ∧ players (db s' code) = players (db s code)
  ∧ ∀ code', code' ≠ code → dbs s' !! code' = dbs s !! code'.
Proof. apply createGame_returns_aux. Qed.

(** X2. [createGame] refuses, with a plain [Error] and without writing,
    exactly when more than 100000 games are registered; with 100000 or
    fewer and a draw that is not registered it creates a game, so the
    registry can grow to 100001 entries. *)
Theorem createGame_cap (now : Z) (draws : list Z) (s : Store) :
  (100000 < Z.of_nat (length (games s)) →
   createGame now draws s
   = Some (Throw (JsError "There are too many games in progress to start a new one."), s))
  ∧ (Z.of_nat (length (games s)) ≤ 100000 →
     (∃ c, c ∈ draws ∧ c ∉ games s) →
     ∃ code s', createGame now draws s = Some (Return code, s')
                ∧ length (games s') = S (length (games s))).
Proof.
  unfold createGame. split.
  - intros Hcap. apply Z.ltb_lt in Hcap. by rewrite Hcap.
  - intros Hcap (c & Hc & Hfree). apply Z.ltb_ge in Hcap. rewrite Hcap.
    destruct (find _ draws) as [code|] eqn:Hf.
    + eexists _, _. split; [reflexivity|]. simpl. rewrite length_app. simpl. lia.
    + exfalso. apply list_elem_of_In in Hc.
      pose proof (find_none _ _ Hf _ Hc) as Hn.
      apply negb_false_iff, bool_decide_eq_true in Hn. done.
Qed.

(** ** The registry *)

Lemma gamesDeleteOne_sublist (q : option Z) (g : list Z) :
  gamesDeleteOne q g `sublist_of` g.
Proof.
  induction g as [|c r IH]; simpl; [done|].
  case_bool_decide; [by apply sublist_cons|by apply sublist_skip].
Qed.

Lemma NoDup_gamesDelete (q : option Z) (s : Store) :
  NoDup (games s) → NoDup (games (gamesDelete q s)).
Proof. intros H. eapply sublist_NoDup; [done|apply gamesDeleteOne_sublist]. Qed.

Lemma NoDup_dropGame (f : Faults) (s : Store) (code : Z) :
  NoDup (games s) → NoDup (games (dropGame f s code)).
Proof.
  intros H. unfold dropGame.
  destruct (dropFails f code), (deleteFails f code); simpl; try done;
    (eapply sublist_NoDup; [done|apply gamesDeleteOne_sublist]).
Qed.

Lemma games_joinGame (name : string) (gameCode : Z) (key : string) (s : Store) :
  games (joinGame name gameCode key s).2 = games s.
Proof.
  destruct (joinGame name gameCode key s) as [[r|e] s'] eqn:Hj; simpl.
  - by apply joinGame_returns in Hj as (_ & _ & _ & _ & _ & ->).
  - by rewrite (joinGame_throws _ _ _ _ _ _ Hj).
Qed.

Lemma games_authUser (sid : string) (ak : AuthKey) (s : Store) :
  games (authUser sid ak s).2 = games s.
Proof.
  unfold authUser. destruct (gamesFindOne _ _); simpl; [|done].
  destruct (findOne _ _); [|done]. by case_bool_decide.
Qed.

Lemma changeName_throws (gameCode : Z) (cur new : string) (s s' : Store) (e : Exn) :
  changeName gameCode cur new s = (Throw e, s') → s' = s.
Proof.
  unfold changeName.
  case_bool_decide; [by intros [= _ <-]|].
  case_bool_decide; [by intros [= _ <-]|].
  destruct (head _) as [st|]; [|by intros [= _ <-]].
  destruct (playing st); [by intros [= _ <-]|].
  destruct (findOne _ _); [discriminate|by intros [= _ <-]].
Qed.

Lemma games_changeName (gameCode : Z) (cur new : string) (s : Store) :
  games (changeName gameCode cur new s).2 = games s.
Proof.
  destruct (changeName gameCode cur new s) as [[r|e] s'] eqn:Hc; simpl.
  - by apply changeName_returns in Hc as (_ & _ & _ & _ & _ & ->).
  - by rewrite (changeName_throws _ _ _ _ _ _ Hc).
Qed.

(** X3. No operation makes the registry list a code twice: [createGame]
    only registers a code it did not find, and the other operations only
    delete entries. *)
Theorem registry_NoDup_run (ops : list Op) (s : Store) :
  NoDup (games s) → NoDup (games (run ops s)).
Proof.
  unfold run. revert s. induction ops as [|o r IH]; intros s H; simpl; [done|].
  apply IH. destruct o; simpl.
  - destruct (createGame now draws s) as [[[c|e] s']|] eqn:Hc; [| |done].
    + apply createGame_returns_aux in Hc as (_ & Hfree & -> & _).
      apply NoDup_app. split; [done|]. split; [|apply NoDup_singleton].
      by intros x Hx ->%list_elem_of_singleton.
    + by apply createGame_Some in Hc as [(_ & _ & ->)|(_ & ? & [=] & _)].
  - by rewrite games_joinGame.
  - by rewrite games_authUser.
  - by rewrite games_changeName.
  - unfold removePlayer. destruct (head _) as [st|]; [|done].
    destruct (playing st); [done|]. destruct (findOne _ _); [|done]. simpl.
    case_bool_decide; [|done]. by apply NoDup_gamesDelete.
  - unfold expiryTick. destruct (existsb _ _); [done|]. simpl.
    generalize (map fst (filter
      (fun g : Z * option Status => shouldDie (msToLive production) currentDate g.2 = true)
      (map (fun code => (code, head (status (db s code)))) (games s)))).
    intros doomed. revert s H.
    induction doomed as [|c l IHl]; intros s H; simpl; [done|].
    apply IHl. by apply NoDup_dropGame.
Qed.

(** ** joinGame, again *)

(** X4. [joinGame] succeeds exactly when the game is registered, its
    status document exists with [playing] false, no player document bears
    the name and fewer than ten player documents are there; in every other
    case it throws and leaves the store as it found it. *)
Theorem joinGame_succeeds_iff (name : string) (gameCode : Z) (key : string) (s : Store) :
  ((∃ s', joinGame name gameCode key s
          = (Return {| jr_gameCode := gameCode; jr_name := name; jr_key := key |}, s'))
   ↔ gameCode ∈ games s
     ∧ (∃ st, head (status (db s gameCode)) = Some st ∧ playing st = false)
     ∧ findOne ("name", VStr name) (players (db s gameCode)) = None
     ∧ (length (players (db s gameCode)) < 10)%nat)
  ∧ (∀ e s', joinGame name gameCode key s = (Throw e, s') → s' = s).
Proof.
  split; [split|].
  - intros (s' & H). apply joinGame_returns in H as (? & ? & ? & ? & _). done.
  - intros (Hg & (st & Hst & Hp) & Hfree & Hlen).
    unfold joinGame, gamesFindOne.
    rewrite bool_decide_eq_true_2 by done. simpl. rewrite Hst.
    rewrite bool_decide_eq_true_2 by done. simpl. rewrite Hfree.
    rewrite bool_decide_eq_false_2 by (by intros [? [=]]).
    rewrite bool_decide_eq_false_2 by lia. eauto.
  - intros e s'. apply joinGame_throws.
Qed.

Lemma joinGame_then_authUser_aux
    (name : string) (gameCode : Z) (key : string) (s s' : Store) (r : JoinReply)
    (sid : string) :
  joinGame name gameCode key s = (Return r, s') →
  ∃ s2, authUser sid {| ak_gameCode := jr_gameCode r;
                        ak_name := jr_name r;
                        ak_key := jr_key r |} s'
        = (Return {| authenticated := true; ar_name := name; ar_gameCode := gameCode |}, s2).
Proof.
  intros Hj. apply joinGame_returns in Hj as (Hg & _ & Hfree & _ & -> & ->). simpl.
  set (ak := {| ak_gameCode := gameCode; ak_name := name; ak_key := key |}).
  set (s' := insertPlayer _ _ _).
  assert (∃ r s2, authUser sid ak s' = (Return r, s2)) as (r & s2 & H).
  { apply authUser_returns. simpl. split; [done|].
    eexists. split.
    - unfold s'. rewrite db_insertPlayer_eq. simpl. unfold insertOne.
      rewrite findOne_skip by (by apply findOne_None_matches).
      unfold findOne, matches; simpl.
      destruct (playerDoc_lookup name
                  (Z.of_nat (length (players (db s gameCode))) + 1) (sha256 key)) as [Hn _].
      by rewrite bool_decide_eq_true_2.
    - apply playerDoc_lookup. }
  exists s2. by rewrite H, (authUser_reply _ _ _ _ _ H).
Qed.

(** X5. The reply of a successful [joinGame] authenticates: [authUser]
    with the code, name and key it returns succeeds on the store the join
    left behind, for any connection. *)
Theorem joinGame_then_authUser
    (name : string) (gameCode : Z) (key : string) (s s' : Store) (r : JoinReply)
    (sid : string) :
  joinGame name gameCode key s = (Return r, s') →
  ∃ s2, authUser sid {| ak_gameCode := jr_gameCode r;
                        ak_name := jr_name r;
                        ak_key := jr_key r |} s'
        = (Return {| authenticated := true; ar_name := name; ar_gameCode := gameCode |}, s2).
Proof. apply joinGame_then_authUser_aux. Qed.

(** ** The shape of player documents *)

Lemma playerSchema_insert (d : Doc) (f : string) (v : Value) :
  f ≠ "name" → f ≠ "order" → f ≠ "hashedKey" → f ≠ "gameCode" →
  playerSchema d → playerSchema (<[f := v]> d).
Proof.
  intros ? ? ? ? (n & o & h & ? & ? & ? & ? & ?).
  exists n, o, h. by rewrite !lookup_insert_ne.
Qed.

Lemma playerSchema_rename (d : Doc) (new : string) :
  playerSchema d → playerSchema (<["name" := VStr new]> d).
Proof.
  intros (n & o & h & ? & ? & ? & ? & ?).
  exists new, o, h. rewrite lookup_insert_eq. by rewrite !lookup_insert_ne.
Qed.

Lemma Forall_updateOne (P : Doc → Prop) (q : Filter) (set : string * Value) (l : list Doc) :
  (∀ d, P d → P (<[set.1 := set.2]> d)) → Forall P l → Forall P (updateOne q set l).
Proof.
  intros Hset. induction l as [|d r IH]; simpl; [done|].
  intros [Hd Hr]%Forall_cons. destruct (matches q d); apply Forall_cons; auto.
Qed.

Lemma Forall_deleteOne (P : Doc → Prop) (q : Filter) (l : list Doc) :
  Forall P l → Forall P (deleteOne q l).
Proof.
  induction l as [|d r IH]; simpl; [done|].
  intros [Hd Hr]%Forall_cons. destruct (matches q d); [done|]. apply Forall_cons; auto.
Qed.


(** ** changeName, again *)

(** X7. [changeName] succeeds exactly when the new name differs from the
    current one and is not empty, the status document exists with
    [playing] false, and a player document bears the current name; it
    checks neither the length of the new name nor whether it is in use.
    In every other case it throws and leaves the store as it found it. *)
Theorem changeName_succeeds_iff (gameCode : Z) (cur new : string) (s : Store) :
  ((∃ s', changeName gameCode cur new s = (Return new, s'))
   ↔ cur ≠ new ∧ new ≠ ""
     ∧ (∃ st, head (status (db s gameCode)) = Some st ∧ playing st = false)
     ∧ is_Some (findOne ("name", VStr cur) (players (db s gameCode))))
  ∧ (∀ e s', changeName gameCode cur new s = (Throw e, s') → s' = s).
Proof.
  split; [split|].
  - intros (s' & H). apply changeName_returns in H as (_ & ? & ? & ? & ? & _). done.
  - intros (H1 & H2 & (st & Hst & Hp) & Hcur). eexists. by eapply changeName_accepts.
  - intros e s'. apply changeName_throws.
Qed.

(** ** removePlayer, again *)

Lemma deleteOne_split_first (q : Filter) (c : list Doc) (d : Doc) :
  findOne q c = Some d →
  ∃ l1 l2, c = l1 ++ d :: l2
           ∧ (∀ x, x ∈ l1 → matches q x = false)
           ∧ deleteOne q c = l1 ++ l2.
Proof.
  unfold findOne. induction c as [|x r IH]; simpl; [discriminate|].
  destruct (matches q x) eqn:Hm.
  - intros [= ->]. exists [], r. split; [reflexivity|]. split; [|reflexivity].
    intros y Hy. inversion Hy.
  - intros Hf. destruct (IH Hf) as (l1 & l2 & -> & Hl1 & Hu).
    exists (x :: l1), l2. split; [reflexivity|]. split.
    + intros y [->|Hy]%elem_of_cons; [done|by apply Hl1].
    + simpl. by rewrite Hu.
Qed.

Lemma removePlayer_returns (gameCode : Z) (p : RemovalRequest) (s s' : Store)
    (r : RemovalReply) :
  removePlayer gameCode p s = (Return r, s') →
  (∃ st, head (status (db s gameCode)) = Some st ∧ playing st = false)
  ∧ ∃ d, findOne ("name", VStr (rr_name p)) (players (db s gameCode)) = Some d
         ∧ r = {| playerToRemove := p; rp_socketClientId := d !! "socketClientId" |}
         ∧ s' = let s1 := alterPlayers (deleteOne ("name", VStr (rr_name p))) gameCode s in
                if bool_decide (length (players (db s1 gameCode)) = 0%nat)
                then gamesDelete (rr_gameCode p) (dropDatabase gameCode s1)
                else s1.
Proof.
  unfold removePlayer.
  destruct (head _) as [st|] eqn:Hst; [|discriminate].
  destruct (playing st) eqn:Hp; [discriminate|].
  destruct (findOne _ _) as [d|] eqn:Hf; [|discriminate].
  intros [= <- <-]. eauto 10.
Qed.

Lemma removePlayer_throws (gameCode : Z) (p : RemovalRequest) (s s' : Store) (e : Exn) :
  removePlayer gameCode p s = (Throw e, s') → s' = s.
Proof.
  unfold removePlayer.
  destruct (head _) as [st|]; [|by intros [= _ <-]].
  destruct (playing st); [by intros [= _ <-]|].
  destruct (findOne _ _); [discriminate|by intros [= _ <-]].
Qed.

Lemma removePlayer_frame_aux (gameCode : Z) (p : RemovalRequest) (s s' : Store)
    (r : RemovalReply) :
  removePlayer gameCode p s = (Return r, s') →
  ∃ l1 d l2,
    players (db s gameCode) = l1 ++ d :: l2
    ∧ d !! "name" = Some (VStr (rr_name p))
    ∧ (∀ x, x ∈ l1 → x !! "name" ≠ Some (VStr (rr_name p)))
    ∧ rp_socketClientId r = d !! "socketClientId"
    ∧ (∀ code, code ≠ gameCode → dbs s' !! code = dbs s !! code)
    ∧ (l1 ++ l2 ≠ [] →
       players (db s' gameCode) = l1 ++ l2
       ∧ status (db s' gameCode) = status (db s gameCode)
       ∧ games s' = games s)
    ∧ (l1 ++ l2 = [] →
       dbs s' !! gameCode = None
       ∧ games s' = gamesDeleteOne (rr_gameCode p) (games s)).
Proof.
  intros H. apply removePlayer_returns in H as (_ & d & Hd & -> & ->).
  destruct (deleteOne_split_first _ _ _ Hd) as (l1 & l2 & Hps & Hno & Hdel).
  assert (∀ x, x ∈ l1 → x !! "name" ≠ Some (VStr (rr_name p))) as Hl1.
  { intros x Hx Hn. apply Hno in Hx. unfold matches in Hx; simpl in Hx.
    by apply bool_decide_eq_false in Hx. }
  apply findOne_Some in Hd as [_ Hdn]. simpl in Hdn.
  exists l1, d, l2. simpl.
  rewrite db_alterPlayers_eq by reflexivity. simpl. rewrite Hdel.
  split; [done|]. split; [done|]. split; [done|]. split; [done|]. split; [|split].
  - intros code Hne. case_bool_decide; simpl.
    + rewrite lookup_delete_ne by done. by apply db_alterPlayers_ne.
    + by apply db_alterPlayers_ne.
  - intros Hne. rewrite bool_decide_eq_false_2.
    + rewrite db_alterPlayers_eq by reflexivity. simpl. by rewrite Hdel.
    + destruct (l1 ++ l2); [done|simpl; lia].
  - intros Hnil. rewrite Hnil. simpl. split; [|done]. apply lookup_delete_eq.
Qed.

(** X8. A successful [removePlayer] deletes one player document, the
    first that bears the name of the request, and returns its
    [socketClientId]. The other player documents keep their fields and
    their order among themselves, and no other game database is touched.
    While a player document is left, the status collection and the
    registry stay as they were; when none is left, the game database is
    dropped and the registry loses the first entry whose code is the
    [gameCode] of the request. *)
Theorem removePlayer_frame (gameCode : Z) (p : RemovalRequest) (s s' : Store)
    (r : RemovalReply) :
  removePlayer gameCode p s = (Return r, s') →
  ∃ l1 d l2,
    players (db s gameCode) = l1 ++ d :: l2
    ∧ d !! "name" = Some (VStr (rr_name p))
    ∧ (∀ x, x ∈ l1 → x !! "name" ≠ Some (VStr (rr_name p)))
    ∧ rp_socketClientId r = d !! "socketClientId"
    ∧ (∀ code, code ≠ gameCode → dbs s' !! code = dbs s !! code)
    ∧ (l1 ++ l2 ≠ [] →
       players (db s' gameCode) = l1 ++ l2
       ∧ status (db s' gameCode) = status (db s gameCode)
       ∧ games s' = games s)
    ∧ (l1 ++ l2 = [] →
       dbs s' !! gameCode = None
       ∧ games s' = gamesDeleteOne (rr_gameCode p) (games s)).
Proof. apply removePlayer_frame_aux. Qed.

(** X9. [removePlayer] succeeds exactly when the status document exists
    with [playing] false and a player document bears the name of the
    request; otherwise it throws and leaves the store as it found it. It
    asks nothing about who sends the request: any name of the roster can
    be removed. *)
Theorem removePlayer_succeeds_iff (gameCode : Z) (p : RemovalRequest) (s : Store) :
  ((∃ r s', removePlayer gameCode p s = (Return r, s'))
   ↔ (∃ st, head (status (db s gameCode)) = Some st ∧ playing st = false)
     ∧ is_Some (findOne ("name", VStr (rr_name p)) (players (db s gameCode))))
  ∧ (∀ e s', removePlayer gameCode p s = (Throw e, s') → s' = s).
Proof.
  split; [split|].
  - intros (r & s' & H). apply removePlayer_returns in H as (? & d & ? & _). eauto.
  - intros ((st & Hst & Hp) & [d Hd]). unfold removePlayer. rewrite Hst, Hp, Hd. eauto.
  - intros e s'. apply removePlayer_throws.
Qed.

(** X10. A removal does not renumber, and the next join counts the
    documents that are left: after a successful [removePlayer] that leaves
    the game in place, a successful [joinGame] gives the new player the
    order that equals the roster size before the removal, the order the
    last of the earlier joiners holds. *)
Theorem joinGame_after_removePlayer
    (gameCode : Z) (p : RemovalRequest) (name key : string)
    (s s1 s2 : Store) (r : RemovalReply) (j : JoinReply) :
  removePlayer gameCode p s = (Return r, s1) →
  joinGame name gameCode key s1 = (Return j, s2) →
  ∃ l,
    players (db s2 gameCode)
    = l ++ [playerDoc name (Z.of_nat (length (players (db s gameCode)))) (sha256 key)]
    ∧ l `sublist_of` players (db s gameCode)
    ∧ S (length l) = length (players (db s gameCode)).
Proof.
  intros Hr Hj.
  destruct (removePlayer_frame_aux _ _ _ _ _ Hr)
    as (l1 & d & l2 & Hps & _ & _ & _ & _ & Hleft & Hnone).
  apply joinGame_returns in Hj as (_ & (st & Hst & _) & _ & _ & _ & ->).
  destruct (decide (l1 ++ l2 = [])) as [Hnil|Hne].
  - exfalso. destruct (Hnone Hnil) as [Hdb _]. unfold db in Hst. by rewrite Hdb in Hst.
  - destruct (Hleft Hne) as (Hps1 & _ & _).
    exists (l1 ++ l2). rewrite db_insertPlayer_eq. simpl. unfold insertOne.
    rewrite Hps1, Hps. rewrite !length_app. simpl.
    split; [|split; [|lia]].
    + do 3 f_equal. lia.
    + apply sublist_app; [done|]. by apply sublist_cons.
Qed.

(** ** The sweep, again *)

Lemma status_alterPlayers (f : list Doc → list Doc) (code c : Z) (s : Store) :
  status (db (alterPlayers f code s) c) = status (db s c).
Proof.
  unfold db, alterPlayers; simpl. rewrite lookup_alter.
  case_decide as Hc; [subst c|done]. by destruct (dbs s !! code).
Qed.

Lemma status_insertPlayer (d : Doc) (code c : Z) (s : Store) :
  status (db (insertPlayer d code s) c) = status (db s c).
Proof.
  unfold db at 1, insertPlayer; simpl. rewrite lookup_insert.
  case_decide as Hc; [by subst c|done].
Qed.

(** X11. Lobby activity does not count as a significant change: a join,
    an authentication and a rename, successful or not, leave every status
    collection as it was, so whether a game should die at a given time is
    the same before and after them. *)
Theorem lobby_activity_keeps_status
    (name key sid cur new : string) (gameCode : Z) (ak : AuthKey) (s : Store) (code : Z) :
  status (db (joinGame name gameCode key s).2 code) = status (db s code)
  ∧ status (db (authUser sid ak s).2 code) = status (db s code)
  ∧ status (db (changeName gameCode cur new s).2 code) = status (db s code)
  ∧ ∀ production now,
      dies production now (joinGame name gameCode key s).2 code = dies production now s code
      ∧ dies production now (authUser sid ak s).2 code = dies production now s code
      ∧ dies production now (changeName gameCode cur new s).2 code
        = dies production now s code.
Proof.
  assert (status (db (joinGame name gameCode key s).2 code) = status (db s code)) as H1.
  { destruct (joinGame name gameCode key s) as [[r|e] s'] eqn:Hj; simpl.
    - apply joinGame_returns in Hj as (_ & _ & _ & _ & _ & ->).
      apply status_insertPlayer.
    - by rewrite (joinGame_throws _ _ _ _ _ _ Hj). }
  assert (status (db (authUser sid ak s).2 code) = status (db s code)) as H2.
  { unfold authUser. destruct (gamesFindOne _ _); simpl; [|done].
    destruct (findOne _ _); [|done]. case_bool_decide; apply status_alterPlayers. }
  assert (status (db (changeName gameCode cur new s).2 code) = status (db s code)) as H3.
  { destruct (changeName gameCode cur new s) as [[r|e] s'] eqn:Hc; simpl.
    - apply changeName_returns in Hc as (_ & _ & _ & _ & _ & ->).
      apply status_alterPlayers.
    - by rewrite (changeName_throws _ _ _ _ _ _ Hc). }
  repeat split; try done; unfold dies; by rewrite ?H1, ?H2, ?H3.
Qed.

Lemma expiryTick_read_failure (f : Faults) (production : bool) (now : Z) (s : Store) :
  existsb (statusReadFails f) (games s) = true →
  expiryTick f production now s = (s, [LogError]).
Proof. intros H. unfold expiryTick. by rewrite H. Qed.

(** X12. A game created at time [now] on a code without a leftover
    database outlives every sweep up to [now] plus the time to live: its
    registry entry and its database are still there after a sweep at any
    such time, whatever store commands fail during the sweep. *)
Theorem created_game_outlives_sweep
    (now : Z) (draws : list Z) (s s' : Store) (code : Z)
    (f : Faults) (production : bool) (later : Z) :
  createGame now draws s = Some (Return code, s') →
  dbs s !! code = None →
  later ≤ now + msToLive production →
  code ∈ games (expiryTick f production later s').1
  ∧ dbs (expiryTick f production later s').1 !! code = dbs s' !! code
  ∧ is_Some (dbs s' !! code).
Proof.
  intros Hc Hfresh Hlater.
  apply createGame_Some in Hc as [(_ & [=] & _)|(_ & c & [= <-] & _ & Hs')].
  assert (code ∈ games s') as Hin.
  { rewrite Hs'. simpl. apply elem_of_app. right. left. }
  assert (dies production later s' code = false) as Hlive.
  { unfold dies, db. rewrite Hs'. simpl. rewrite lookup_insert_eq. simpl.
    unfold db. rewrite Hfresh. simpl. apply Z.ltb_ge. lia. }
  assert (is_Some (dbs s' !! code)) as Hsome.
  { rewrite Hs'. simpl. rewrite lookup_insert_eq. eauto. }
  destruct (existsb (statusReadFails f) (games s')) eqn:Hr.
  - rewrite expiryTick_read_failure by done. done.
  - destruct (expiryTick_store f production later s' Hr) as [Hg Hd].
    simpl in Hg, Hd. rewrite Hg, Hd. split; [|split; [|done]].
    + apply list_elem_of_filter. split; [|done]. intros [? _]. congruence.
    + rewrite decide_False; [done|]. intros (_ & ? & _). congruence.
Qed.

Lemma filter_all {A} (P : A → Prop) `{∀ x, Decision (P x)} (l : list A) :
  Forall P l → filter P l = l.
Proof.
  induction 1 as [|x r Hx Hr IH]; [done|].
  by rewrite filter_cons_True, IH.
Qed.

Lemma noFaults_reads (g : list Z) : existsb (statusReadFails noFaults) g = false.
Proof. apply not_true_is_false. intros (c & _ & [=])%existsb_exists. Qed.

(** X13. A sweep without store failures leaves nothing to do for a second
    sweep at the same time: the second one returns the store the first one
    left. *)
Theorem expiryTick_idempotent (production : bool) (now : Z) (s : Store) :
  (expiryTick noFaults production now (expiryTick noFaults production now s).1).1
  = (expiryTick noFaults production now s).1.
Proof.
  destruct (expiryTick_store noFaults production now s (noFaults_reads _)) as [Hg Hd].
  simpl in Hg, Hd. set (s1 := (expiryTick noFaults production now s).1) in *.
  destruct (expiryTick_store noFaults production now s1 (noFaults_reads _)) as [Hg1 Hd1].
  simpl in Hg1, Hd1.
  assert (∀ c, c ∈ games s1 → dies production now s1 c = false) as Hlive.
  { intros c Hc. rewrite Hg in Hc. apply list_elem_of_filter in Hc as [Hn Hc].
    assert (dbs s1 !! c = dbs s !! c) as Hsame.
    { rewrite Hd, decide_False; [done|]. intros (_ & ? & _). by apply Hn. }
    unfold dies, db. rewrite Hsame. apply not_true_is_false. intros Hdie.
    by apply Hn. }
  apply store_eq.
  - rewrite Hg1. apply filter_all, Forall_forall. intros c Hc [Hdie _].
    rewrite (Hlive c Hc) in Hdie. done.
  - apply map_eq. intros c. rewrite Hd1, decide_False; [done|].
    intros (Hc & Hdie & _). rewrite (Hlive c Hc) in Hdie. done.
Qed.

(** X14. A sweep only deletes: whatever commands fail, the registry
    afterwards is a sublist of the registry before, every game database
    that is there afterwards was there before with the same content, and
    a database whose code is not registered is never dropped. *)
Theorem expiryTick_only_deletes (f : Faults) (production : bool) (now : Z) (s : Store) :
  let s' := (expiryTick f production now s).1 in
  games s' `sublist_of` games s
  ∧ (∀ code g, dbs s' !! code = Some g → dbs s !! code = Some g)
  ∧ (∀ code, code ∉ games s → dbs s' !! code = dbs s !! code).
Proof.
  simpl. destruct (existsb (statusReadFails f) (games s)) eqn:Hr.
  - rewrite expiryTick_read_failure by done. done.
  - destruct (expiryTick_store f production now s Hr) as [Hg Hd].
    simpl in Hg, Hd. rewrite Hg. split; [apply sublist_filter|]. split.
    + intros code g. rewrite Hd. by case_decide.
    + intros code Hout. rewrite Hd, decide_False; [done|]. by intros (? & _).
Qed.

(** ** POST /join *)

Lemma postJoin_try_returns (req : JoinRequest) (now : Z) (draws : list Z) (key : string)
    (s s' : Store) (r : JoinReply) :
  postJoin_try req now draws key s = Some (Return r, s') →
  ∃ name, req_playerName req = Some name
          ∧ name ≠ "" ∧ (String.length name ≤ 20)%nat
          ∧ ((∃ c, req_gameCode req = Some c ∧ minGameCode ≤ c < maxGameCode
                   ∧ joinGame name c key s = (Return r, s'))
             ∨ (req_gameCode req = None
                ∧ ∃ c s1, createGame now draws s = Some (Return c, s1)
                          ∧ joinGame name c key s1 = (Return r, s'))).
Proof.
  unfold postJoin_try. destruct (req_playerName req) as [name|]; [|discriminate].
  case_bool_decide as Hn; [discriminate|].
  case_bool_decide as Hl; [discriminate|].
  destruct (req_gameCode req) as [c|].
  - destruct (_ || _) eqn:Hc; [discriminate|].
    apply orb_false_iff in Hc as [H1%Z.ltb_ge H2%Z.leb_gt].
    intros [= H]. exists name. split; [done|]. split; [done|]. split; [lia|].
    left. exists c. eauto.
  - destruct (createGame now draws s) as [[[c|e] s1]|] eqn:Hc; [|discriminate..].
    intros [= H]. exists name. split; [done|]. split; [done|]. split; [lia|].
    right. eauto 10.
Qed.


(** X16. A [/join] request with a name of 1 to 20 characters and no game
    code, on a registry of at most 100000 games, with a draw that is not
    registered and has no leftover database: the response is
    [{gameCode, name, key}] with the first such draw, and the new game is
    registered, has the one status document
    [{playing: false, lastSignificantChange: now}] and the requester as
    its only player, with order 1. *)
Theorem postJoin_creates_game (production : bool) (name : string) (now : Z)
    (draws : list Z) (key : string) (s : Store) (code : Z) :
  name ≠ "" → (String.length name ≤ 20)%nat →
  Z.of_nat (length (games s)) ≤ 100000 →
  find (fun c => negb (gamesFindOne c (games s))) draws = Some code →
  dbs s !! code = None →
  ∃ s', postJoin production {| req_playerName := Some name; req_gameCode := None |}
                 now draws key s
        = Some ({| res_status := 200;
                   res_body := JoinedBody {| jr_gameCode := code;
                                             jr_name := name;
                                             jr_key := key |} |}, [], s')
        ∧ games s' = games s ++ [code]
        ∧ status (db s' code) = [{| playing := false; lastSignificantChange := now |}]
        ∧ players (db s' code) = [playerDoc name 1 (sha256 key)]
        ∧ ∀ code', code' ≠ code → dbs s' !! code' = dbs s !! code'.
Proof.
  intros Hne Hlen Hcap Hdraw Hfresh.
  assert (createGame now draws s
          = Some (Return code,
                  {| games := games s ++ [code];
                     dbs := dbs (insertStatus
                                   {| playing := false; lastSignificantChange := now |}
                                   code s) |})) as Hc.
  { unfold createGame. apply Z.ltb_ge in Hcap. by rewrite Hcap, Hdraw. }
  set (s1 := {| games := games s ++ [code]; dbs := _ |}) in Hc.
  assert (db s1 code
          = {| status := [{| playing := false; lastSignificantChange := now |}];
               players := [] |}) as Hdb.
  { unfold db, s1; simpl. rewrite lookup_insert_eq. simpl. unfold db. by rewrite Hfresh. }
  assert (joinGame name code key s1
          = (Return {| jr_gameCode := code; jr_name := name; jr_key := key |},
             insertPlayer (playerDoc name 1 (sha256 key)) code s1)) as Hj.
  { unfold joinGame, gamesFindOne.
    rewrite bool_decide_eq_true_2
      by (unfold s1; simpl; apply elem_of_app; right; left).
    simpl. rewrite Hdb. simpl. reflexivity. }
  eexists. split.
  - unfold postJoin, postJoin_try. simpl.
    rewrite bool_decide_eq_false_2 by done.
    rewrite bool_decide_eq_false_2 by lia.
    rewrite Hc, Hj. reflexivity.
  - rewrite db_insertPlayer_eq, Hdb. simpl. repeat split.
    intros code' Hne'. rewrite lookup_insert_ne by done.
    unfold s1; simpl. by rewrite lookup_insert_ne.
Qed.

(** X17. In production the response to [/join] never carries an
    exception other than a [UserException]: its body is the join reply, a
    [UserException], or the fixed masked error, the status being 500
    exactly in the last case; and in either mode an exception that is not
    a [UserException] is logged. *)
Theorem postJoin_masks_errors (production : bool) (req : JoinRequest) (now : Z)
    (draws : list Z) (key : string) (s s' : Store) (resp : Response) (log : list Exn) :
  postJoin production req now draws key s = Some (resp, log, s') →
  (production = true →
   ((∃ r, res_body resp = JoinedBody r)
    ∨ (∃ m t, res_body resp = ErrorBody (UserException m t))
    ∨ res_body resp = ErrorBody maskedJoinError)
   ∧ (res_status resp = 500 ↔ res_body resp = ErrorBody maskedJoinError))
  ∧ (∀ e, postJoin_try req now draws key s = Some (Throw e, s') →
          isUserException e = false → log = [e])
  ∧ (∀ e, postJoin_try req now draws key s = Some (Throw e, s') →
          isUserException e = true →
          log = [] ∧ resp = {| res_status := 200; res_body := ErrorBody e |}).
Proof.
  unfold postJoin.
  destruct (postJoin_try req now draws key s) as [[[r|e] s1]|] eqn:Ht; [| |discriminate].
  - intros [= <- <- <-]. simpl. split; [|split; discriminate].
    intros _. split; [eauto|]. split; discriminate.
  - destruct e as [m t|m|m]; simpl.
    + intros [= <- <- <-]. simpl. split; [|split].
      * intros _. split; [eauto|]. split; discriminate.
      * intros e [= <-]. discriminate.
      * by intros e [= <-] _.
    + destruct production; simpl; intros [= <- <- <-]; simpl.
      * split; [|split].
        -- intros _. split; [eauto|]. done.
        -- by intros e [= <-] _.
        -- intros e [= <-]. discriminate.
      * split; [discriminate|]. split.
        -- by intros e [= <-] _.
        -- intros e [= <-]. discriminate.
    + destruct production; simpl; intros [= <- <- <-]; simpl.
      * split; [|split].
        -- intros _. split; [eauto|]. done.
        -- by intros e [= <-] _.
        -- intros e [= <-]. discriminate.
      * split; [discriminate|]. split.
        -- by intros e [= <-] _.
        -- intros e [= <-]. discriminate.
Qed.

(** X18. [/join] does not undo [createGame]: when a request without a
    game code creates a game and the join that follows throws, the
    response is an error and the game just created stays registered,
    with no player added. *)
Theorem postJoin_keeps_created_game (production : bool) (name : string) (now : Z)
    (draws : list Z) (key : string) (s s1 s2 : Store) (code : Z) (e : Exn) :
  name ≠ "" → (String.length name ≤ 20)%nat →
  createGame now draws s = Some (Return code, s1) →
  joinGame name code key s1 = (Throw e, s2) →
  ∃ resp log,
    postJoin production {| req_playerName := Some name; req_gameCode := None |}
             now draws key s
    = Some (resp, log, s1)
    ∧ (∃ e', res_body resp = ErrorBody e')
    ∧ (code ∉ games s) ∧ code ∈ games s1
    ∧ players (db s1 code) = players (db s code).
Proof.
  intros Hne Hlen Hc Hj.
  pose proof (joinGame_throws _ _ _ _ _ _ Hj) as ->.
  destruct (createGame_returns_aux _ _ _ _ _ Hc) as (_ & Hfree & Hg & _ & Hps & _).
  assert (postJoin_try {| req_playerName := Some name; req_gameCode := None |}
                       now draws key s = Some (Throw e, s1)) as Ht.
  { unfold postJoin_try. simpl.
    rewrite bool_decide_eq_false_2 by done.
    rewrite bool_decide_eq_false_2 by lia.
    by rewrite Hc, Hj. }
  unfold postJoin. rewrite Ht.
  destruct (isUserException e || negb production); eexists _, _;
    (split; [reflexivity|]); simpl;
    (split; [eauto|]); (split; [done|]); (split; [|done]);
    rewrite Hg; apply elem_of_app; right; left.
Qed.

(** ** The socket handlers *)

Lemma pushStatus_event (readFails : bool) (gameCode : Z) (s : Store) :
  ∃ g, pushStatus readFails gameCode s = [ToRoom gameCode (GameStatusEvent g)]
       ∧ (readFails = false → ∀ st, head (status (db s gameCode)) = Some st →
          g = if playing st then Undefined
              else Lobby (map playerView (players (db s gameCode))))
       ∧ (readFails = true ∨ head (status (db s gameCode)) = None →
          g = ErrorStatus "An unexpected error occurred").
Proof.
  unfold pushStatus, getGameStatus, getGameStatus_try.
  destruct readFails.
  - eexists. split; [reflexivity|]. split; [discriminate|done].
  - destruct (head _) as [st|].
    + destruct (playing st) eqn:Hp; simpl; eexists; (split; [reflexivity|]);
        (split; [intros _ st' [= <-]; by rewrite Hp|by intros [[=]|[=]]]).
    + eexists. split; [reflexivity|]. split; [by intros _ st [=]|done].
Qed.

Lemma pushStatusStored_event (readFails : bool) (gameCode : Z) (s : Store) :
  ∃ g, pushStatusStored readFails gameCode s
       = [OnStoredRoomAll gameCode (GameStatusEvent g)]
       ∧ (readFails = false → ∀ st, head (status (db s gameCode)) = Some st →
          g = if playing st then Undefined
              else Lobby (map playerView (players (db s gameCode)))).
Proof.
  unfold pushStatusStored, getGameStatus, getGameStatus_try.
  destruct readFails.
  - eexists. split; [reflexivity|discriminate].
  - destruct (head _) as [st|].
    + destruct (playing st) eqn:Hp; simpl; eexists; (split; [reflexivity|]);
        intros _ st' [= <-]; by rewrite Hp.
    + eexists. split; [reflexivity|]. by intros _ st [=].
Qed.

(** X20. A successful rename through the [changeName] handler is followed
    by a lobby snapshot: with the store reads succeeding, the handler sends
    [nameChanged] to the requester and then emits, on the [roomAll] the
    connection stored when it authenticated, a snapshot
    [{playing: false, players}] of the roster after the rename, in which
    an entry bears the new name; and the connection is bound to the new
    name. *)
Theorem onChangeName_success (newName : string) (player : AuthReply)
    (s s' : Store) (n : string) :
  changeName (ar_gameCode player) (ar_name player) newName s = (Return n, s') →
  onChangeName false newName (Some player) s
  = (Some {| authenticated := authenticated player;
             ar_name := newName;
             ar_gameCode := ar_gameCode player |},
     s',
     [ToSocket (NameChanged newName);
      OnStoredRoomAll (ar_gameCode player)
        (GameStatusEvent (Lobby (map playerView (players (db s' (ar_gameCode player))))))])
  ∧ ∃ v, v ∈ map playerView (players (db s' (ar_gameCode player)))
         ∧ pv_name v = Some (VStr newName).
Proof.
  intros Hc. unfold onChangeName. rewrite Hc.
  pose proof (changeName_frame _ _ _ _ _ _ Hc)
    as (l1 & d & l2 & _ & _ & _ & Hps' & _ & Hst & _).
  pose proof Hc as Hc'.
  apply changeName_returns in Hc' as (-> & _ & _ & (st & Hhead & Hp) & _ & _).
  destruct (pushStatusStored_event false (ar_gameCode player) s') as (g & -> & Hg).
  rewrite (Hg eq_refl st) by (by rewrite Hst). rewrite Hp.
  split; [done|].
  exists (playerView (<["name" := VStr newName]> d)). split.
  - rewrite Hps', map_app. apply elem_of_app. right. left.
  - unfold playerView; simpl. apply lookup_insert_eq.
Qed.

(** ** The client *)

Lemma authUserPayload_string (sid : string) (p : AuthPayload) (key : string) (s : Store) :
  ap_key p = Some key →
  authUserPayload sid (Some p) s
  = authUser sid {| ak_gameCode := ap_gameCode p; ak_name := ap_name p; ak_key := key |} s.
Proof. intros Hk. unfold authUserPayload, authUser. simpl. by rewrite Hk. Qed.

Lemma authUserPayload_throws (sid : string) (payload : option AuthPayload)
    (s s' : Store) (e : Exn) :
  authUserPayload sid payload s = (Throw e, s') →
  (∃ m, e = UserException m "authError")
  ∨ (e = nullGameCode ∧ payload = None)
  ∨ (e = badHashData
     ∧ ∃ p, payload = Some p ∧ ap_key p = None ∧ ap_gameCode p ∈ games s
            ∧ is_Some (findOne ("name", VStr (ap_name p)) (players (db s (ap_gameCode p))))).
Proof.
  unfold authUserPayload. destruct payload as [p|]; [|intros [= <- _]; eauto].
  unfold gamesFindOne. case_bool_decide as Hg; simpl; [|intros [= <- _]; eauto].
  destruct (findOne _ _) as [player|] eqn:Hf; [|intros [= <- _]; eauto].
  destruct (ap_key p) as [key|] eqn:Hk.
  - case_bool_decide; [discriminate|intros [= <- _]; eauto].
  - intros [= <- _]. right. right. split; [done|]. exists p. eauto.
Qed.


(** X22. The credentials the client stores stay good across a rename: if
    the client's credentials authenticate, the connection is bound to the
    same player, and the rename to a name no player document bears
    succeeds, then after the client has handled [nameChanged] the
    credentials in its session storage carry the new name and
    authenticate on the store the rename left behind. *)
Theorem client_credentials_follow_rename
    (newName sid sid' : string) (player : AuthReply) (c : Client)
    (s s' s0 : Store) (n : string) (r : AuthReply) :
  ar_name player = ak_name (thisPlayer c) →
  ar_gameCode player = ak_gameCode (thisPlayer c) →
  authUser sid (thisPlayer c) s = (Return r, s0) →
  findOne ("name", VStr newName) (players (db s (ar_gameCode player))) = None →
  changeName (ar_gameCode player) (ar_name player) newName s = (Return n, s') →
  ∃ k s2,
    sessionAuthKey (clientOnNameChanged newName c) = Some k
    ∧ ak_name k = newName
    ∧ ak_key k = ak_key (thisPlayer c)
    ∧ authUser sid' k s'
      = (Return {| authenticated := true;
                   ar_name := newName;
                   ar_gameCode := ar_gameCode player |}, s2).
Proof.
  intros Hn Hg Ha Hfree Hc.
  destruct (thisPlayer c) as [code name key] eqn:Hp. simpl in *.
  rewrite Hn, Hg in *.
  destruct (changeName_keeps_key _ _ _ key sid sid' _ _ _ _ _ Hc Hfree Ha) as [s2 Hs2].
  exists {| ak_gameCode := code; ak_name := newName; ak_key := key |}, s2.
  unfold clientOnNameChanged. rewrite Hp. simpl. done.
Qed.

(** X23. What the client makes of a status push. With the store reads
    succeeding and no round in progress its player list becomes the
    roster, one entry per player document in order; while a round is in
    progress the pushed event carries nothing and the client's handler
    throws on it; when a read fails or the status document is missing the
    client's player list becomes [undefined]. *)
Theorem client_on_status_push (readFails : bool) (gameCode : Z) (s : Store) (c : Client) :
  ∃ g, pushStatus readFails gameCode s = [ToRoom gameCode (GameStatusEvent g)]
       ∧ (∀ st, readFails = false → head (status (db s gameCode)) = Some st →
                playing st = false →
                ∃ c', clientOn (GameStatusEvent g) c = Return c'
                      ∧ statePlayers c' = Some (map playerView (players (db s gameCode)))
                      ∧ stateGameInProgress c' = false
                      ∧ sessionAuthKey c' = sessionAuthKey c)
       ∧ (∀ st, readFails = false → head (status (db s gameCode)) = Some st →
                playing st = true →
                clientOn (GameStatusEvent g) c = Throw nullPlaying)
       ∧ (readFails = true ∨ head (status (db s gameCode)) = None →
          ∃ c', clientOn (GameStatusEvent g) c = Return c'
                ∧ statePlayers c' = None).
Proof.
  destruct (pushStatus_event readFails gameCode s) as (g & Hpush & Hok & Herr).
  exists g. split; [done|]. split; [|split].
  - intros st Hr Hst Hp. rewrite (Hok Hr st Hst), Hp. simpl. eauto.
  - intros st Hr Hst Hp. by rewrite (Hok Hr st Hst), Hp.
  - intros H. rewrite (Herr H). simpl. eauto.
Qed.

(** ** The further properties on the example stores *)

Lemma createGame_returns_witness :
  createGame 2000 [5; 7] aliceAlone
  = Some (Return 7, step aliceAlone (OpCreateGame 2000 [5; 7]))
  ∧ 7 ∈ [5; 7]
  ∧ (7 ∉ games aliceAlone)
  ∧ games (step aliceAlone (OpCreateGame 2000 [5; 7])) = games aliceAlone ++ [7].
Proof.
  assert (createGame 2000 [5; 7] aliceAlone
          = Some (Return 7, step aliceAlone (OpCreateGame 2000 [5; 7]))) as H
    by (vm_compute; reflexivity).
  destruct (createGame_returns _ _ _ _ _ H) as (H1 & H2 & H3 & _).
  exact (conj H (conj H1 (conj H2 H3))).
Defined.

Lemma createGame_cap_witness :
  createGame 0 [100000] overfullRegistry
  = Some (Throw (JsError "There are too many games in progress to start a new one."),
          overfullRegistry)
  ∧ ∃ code s', createGame 0 [100000] fullRegistry = Some (Return code, s')
               ∧ length (games s') = S (length (games fullRegistry)).
Proof.
  split.
  - apply (proj1 (createGame_cap 0 [100000] overfullRegistry)).
    vm_compute; reflexivity.
  - apply (proj2 (createGame_cap 0 [100000] fullRegistry)).
    + vm_compute; discriminate.
    + exists 100000. split; [left|]. by_evaluation.
Defined.

Lemma registry_NoDup_run_witness :
  NoDup (games twoIdleGames)
  ∧ NoDup (games (run [OpCreateGame 0 [1; 2; 3];
                       OpRemovePlayer 2 {| rr_name := "Bob"; rr_gameCode := Some 1 |}]
                      twoIdleGames)).
Proof.
  assert (NoDup (games twoIdleGames)) as H by by_evaluation.
  split; [exact H|]. exact (registry_NoDup_run _ _ H).
Defined.

Lemma joinGame_succeeds_iff_witness :
  (∃ s', joinGame "Bob" 5 keyBob aliceAlone
         = (Return {| jr_gameCode := 5; jr_name := "Bob"; jr_key := keyBob |}, s'))
  ∧ (joinGame "Alice" 5 keyBob aliceAlone).2 = aliceAlone.
Proof.
  destruct (joinGame_succeeds_iff "Bob" 5 keyBob aliceAlone) as [[_ Hok] _].
  destruct (joinGame_succeeds_iff "Alice" 5 keyBob aliceAlone) as [_ Hfail].
  split.
  - apply Hok. split; [by_evaluation|]. split.
    + exists {| playing := false; lastSignificantChange := 1000 |}.
      split; vm_compute; reflexivity.
    + split; [vm_compute; reflexivity|vm_compute; lia].
  - apply (Hfail (UserException
      "Your chosen name is in use by another player. Please use another name." "")).
    vm_compute; reflexivity.
Defined.

Lemma joinGame_then_authUser_witness :
  joinGame "Bob" 5 keyBob aliceAlone
  = (Return {| jr_gameCode := 5; jr_name := "Bob"; jr_key := keyBob |}, aliceAndBob)
  ∧ ∃ s2, authUser "conn-2" keyOfBob aliceAndBob
          = (Return {| authenticated := true; ar_name := "Bob"; ar_gameCode := 5 |}, s2).
Proof.
  assert (joinGame "Bob" 5 keyBob aliceAlone
          = (Return {| jr_gameCode := 5; jr_name := "Bob"; jr_key := keyBob |}, aliceAndBob))
    as H by (vm_compute; reflexivity).
  split; [exact H|]. exact (joinGame_then_authUser _ _ _ _ _ _ "conn-2" H).
Defined.


Lemma changeName_succeeds_iff_witness :
  (∃ s', changeName 5 "Bob" "a name of more than twenty characters" aliceAndBob
         = (Return "a name of more than twenty characters", s'))
  ∧ (changeName 5 "Bob" "" aliceAndBob).2 = aliceAndBob.
Proof.
  destruct (changeName_succeeds_iff 5 "Bob" "a name of more than twenty characters"
              aliceAndBob) as [[_ Hok] _].
  destruct (changeName_succeeds_iff 5 "Bob" "" aliceAndBob) as [_ Hfail].
  split.
  - apply Hok. split; [discriminate|]. split; [discriminate|]. split.
    + exists {| playing := false; lastSignificantChange := 1000 |}.
      split; vm_compute; reflexivity.
    + by_evaluation.
  - apply (Hfail (UserException "You cannot have a blank name" "")).
    vm_compute; reflexivity.
Defined.

Lemma removePlayer_frame_witness :
  removePlayer 5 aliceWithoutGameCode aliceAndBob
  = (Return {| playerToRemove := aliceWithoutGameCode; rp_socketClientId := None |},
     (removePlayer 5 aliceWithoutGameCode aliceAndBob).2)
  ∧ ∃ l1 d l2,
      players (db aliceAndBob 5) = l1 ++ d :: l2
      ∧ d !! "name" = Some (VStr "Alice")
      ∧ (l1 ++ l2 ≠ [] →
         players (db (removePlayer 5 aliceWithoutGameCode aliceAndBob).2 5) = l1 ++ l2
         ∧ status (db (removePlayer 5 aliceWithoutGameCode aliceAndBob).2 5)
           = status (db aliceAndBob 5)
         ∧ games (removePlayer 5 aliceWithoutGameCode aliceAndBob).2 = games aliceAndBob).
Proof.
  assert (removePlayer 5 aliceWithoutGameCode aliceAndBob
          = (Return {| playerToRemove := aliceWithoutGameCode; rp_socketClientId := None |},
             (removePlayer 5 aliceWithoutGameCode aliceAndBob).2)) as H
    by (vm_compute; reflexivity).
  destruct (removePlayer_frame _ _ _ _ _ H)
    as (l1 & d & l2 & Hps & Hd & _ & _ & _ & Hleft & _).
  split; [exact H|]. exists l1, d, l2. exact (conj Hps (conj Hd Hleft)).
Defined.

Lemma removePlayer_succeeds_iff_witness :
  (∃ r s', removePlayer 5 aliceWithoutGameCode aliceAndBob = (Return r, s'))
  ∧ (removePlayer 5 {| rr_name := "Carol"; rr_gameCode := Some 5 |} aliceAndBob).2
    = aliceAndBob.
Proof.
  destruct (removePlayer_succeeds_iff 5 aliceWithoutGameCode aliceAndBob) as [[_ Hok] _].
  destruct (removePlayer_succeeds_iff 5 {| rr_name := "Carol"; rr_gameCode := Some 5 |}
              aliceAndBob) as [_ Hfail].
  split.
  - apply Hok. split.
    + exists {| playing := false; lastSignificantChange := 1000 |}.
      split; vm_compute; reflexivity.
    + by_evaluation.
  - apply (Hfail (UserException "The player you try to remove is not in game" "")).
    vm_compute; reflexivity.
Defined.

Lemma joinGame_after_removePlayer_witness :
  map (fun d => d !! "order") (players (db aliceAndBob 5)) = [Some (VNum 1); Some (VNum 2)]
  ∧ ∃ l,
      players (db (run [OpRemovePlayer 5 aliceWithoutGameCode;
                        OpJoinGame "Carol" 5 keyAlice] aliceAndBob) 5)
      = l ++ [playerDoc "Carol" 2 (sha256 keyAlice)]
      ∧ l `sublist_of` players (db aliceAndBob 5)
      ∧ S (length l) = length (players (db aliceAndBob 5)).
Proof.
  split; [vm_compute; reflexivity|].
  apply (joinGame_after_removePlayer 5 aliceWithoutGameCode "Carol" keyAlice aliceAndBob
           (removePlayer 5 aliceWithoutGameCode aliceAndBob).2 _
           {| playerToRemove := aliceWithoutGameCode; rp_socketClientId := None |}
           {| jr_gameCode := 5; jr_name := "Carol"; jr_key := keyAlice |});
    vm_compute; reflexivity.
Defined.

Lemma created_game_outlives_sweep_witness :
  createGame 1000 [5] emptyStore
  = Some (Return 5, step emptyStore (OpCreateGame 1000 [5]))
  ∧ 5 ∈ games (expiryTick dropOfGame1Fails false 1801000
                 (step emptyStore (OpCreateGame 1000 [5]))).1
  ∧ (5 ∉ games (expiryTick noFaults false 1801001
                  (step emptyStore (OpCreateGame 1000 [5]))).1).
Proof.
  assert (createGame 1000 [5] emptyStore
          = Some (Return 5, step emptyStore (OpCreateGame 1000 [5]))) as H
    by (vm_compute; reflexivity).
  assert (dbs emptyStore !! 5 = None) as Hfresh by (vm_compute; reflexivity).
  assert (1801000 ≤ 1000 + msToLive false) as Hlater by (vm_compute; discriminate).
  destruct (created_game_outlives_sweep _ _ _ _ _ dropOfGame1Fails false 1801000
              H Hfresh Hlater) as (Hin & _ & _).
  split; [exact H|]. split; [exact Hin|]. by_evaluation.
Defined.


Lemma postJoin_creates_game_witness :
  ∃ s', postJoin false aliceRequestsNewGame 1000 [5] keyAlice emptyStore
        = Some ({| res_status := 200;
                   res_body := JoinedBody {| jr_gameCode := 5; jr_name := "Alice";
                                             jr_key := keyAlice |} |}, [], s')
        ∧ games s' = games emptyStore ++ [5]
        ∧ status (db s' 5) = [{| playing := false; lastSignificantChange := 1000 |}]
        ∧ players (db s' 5) = [playerDoc "Alice" 1 (sha256 keyAlice)]
        ∧ ∀ code', code' ≠ 5 → dbs s' !! code' = dbs emptyStore !! code'.
Proof.
  apply (postJoin_creates_game false "Alice" 1000 [5] keyAlice emptyStore 5).
  - discriminate.
  - vm_compute; lia.
  - vm_compute; discriminate.
  - vm_compute; reflexivity.
  - vm_compute; reflexivity.
Defined.

Lemma postJoin_masks_errors_witness :
  postJoin true bobRequestsGame5 2000 [] keyBob game5WithoutDatabase
  = Some ({| res_status := 500; res_body := ErrorBody maskedJoinError |},
          [nullPlaying], game5WithoutDatabase)
  ∧ postJoin false bobRequestsGame5 2000 [] keyBob game5WithoutDatabase
    = Some ({| res_status := 200; res_body := ErrorBody nullPlaying |},
            [nullPlaying], game5WithoutDatabase).
Proof.
  assert (postJoin true bobRequestsGame5 2000 [] keyBob game5WithoutDatabase
          = Some ({| res_status := 500; res_body := ErrorBody maskedJoinError |},
                  [nullPlaying], game5WithoutDatabase)) as H
    by (vm_compute; reflexivity).
  pose proof (postJoin_masks_errors _ _ _ _ _ _ _ _ _ H) as (Hprod & _ & _).
  destruct (Hprod eq_refl) as [_ [H500 _]].
  split; [exact H|]. vm_compute; reflexivity.
Defined.

Lemma postJoin_keeps_created_game_witness :
  games game1Unregistered = [2]
  ∧ ∃ resp log,
      postJoin true {| req_playerName := Some "Alice"; req_gameCode := None |}
               5000 [1] keyBob game1Unregistered
      = Some (resp, log, step game1Unregistered (OpCreateGame 5000 [1]))
      ∧ (∃ e', res_body resp = ErrorBody e')
      ∧ (1 ∉ games game1Unregistered)
      ∧ 1 ∈ games (step game1Unregistered (OpCreateGame 5000 [1]))
      ∧ players (db (step game1Unregistered (OpCreateGame 5000 [1])) 1)
        = players (db game1Unregistered 1).
Proof.
  split; [vm_compute; reflexivity|].
  apply (postJoin_keeps_created_game true "Alice" 5000 [1] keyBob game1Unregistered
           (step game1Unregistered (OpCreateGame 5000 [1]))
           (step game1Unregistered (OpCreateGame 5000 [1])) 1
           (UserException
              "Your chosen name is in use by another player. Please use another name." "")).
  - discriminate.
  - vm_compute; lia.
  - vm_compute; reflexivity.
  - vm_compute; reflexivity.
Defined.

Lemma onChangeName_success_witness :
  changeName 5 "Bob" "Robert" aliceAndBob
  = (Return "Robert", (changeName 5 "Bob" "Robert" aliceAndBob).2)
  ∧ (onChangeName false "Robert" (Some bobConnected) aliceAndBob).2
    = [ToSocket (NameChanged "Robert");
       OnStoredRoomAll 5 (GameStatusEvent (Lobby
         [{| pv_name := Some (VStr "Alice"); pv_order := Some (VNum 1);
             pv_gameCode := None |};
          {| pv_name := Some (VStr "Robert"); pv_order := Some (VNum 2);
             pv_gameCode := None |}]))].
Proof.
  assert (changeName (ar_gameCode bobConnected) (ar_name bobConnected) "Robert" aliceAndBob
          = (Return "Robert", (changeName 5 "Bob" "Robert" aliceAndBob).2)) as H
    by (vm_compute; reflexivity).
  split; [exact H|].
  rewrite (proj1 (onChangeName_success "Robert" bobConnected aliceAndBob _ _ H)).
  vm_compute; reflexivity.
Defined.


Lemma client_credentials_follow_rename_witness :
  ∃ k s2,
    sessionAuthKey (clientOnNameChanged "Robert" bobClient) = Some k
    ∧ ak_name k = "Robert"
    ∧ ak_key k = ak_key (thisPlayer bobClient)
    ∧ authUser "conn-3" k (changeName 5 "Bob" "Robert" aliceAndBob).2
      = (Return {| authenticated := true; ar_name := "Robert";
                   ar_gameCode := ar_gameCode bobConnected |}, s2).
Proof.
  apply (client_credentials_follow_rename "Robert" "conn-2" "conn-3" bobConnected bobClient
           aliceAndBob _ aliceAndBob "Robert"
           {| authenticated := true; ar_name := "Bob"; ar_gameCode := 5 |}).
  - reflexivity.
  - reflexivity.
  - vm_compute; reflexivity.
  - vm_compute; reflexivity.
  - vm_compute; reflexivity.
Defined.

Lemma client_on_status_push_witness :
  head (status (db roundInProgress 5))
  = Some {| playing := true; lastSignificantChange := 1000 |}
  ∧ ∃ g, pushStatus false 5 roundInProgress = [ToRoom 5 (GameStatusEvent g)]
         ∧ clientOn (GameStatusEvent g) bobClient = Throw nullPlaying.
Proof.
  assert (head (status (db roundInProgress 5))
          = Some {| playing := true; lastSignificantChange := 1000 |}) as Hst
    by (vm_compute; reflexivity).
  destruct (client_on_status_push false 5 roundInProgress bobClient)
    as (g & Hpush & _ & Hplaying & _).
  split; [exact Hst|]. exists g. split; [exact Hpush|].
  exact (Hplaying _ eq_refl Hst eq_refl).
Defined.

(** ** authUser on any payload *)




(** ** Overlapping joins *)

(** [joinGame] is its reads followed at once by its insert. *)
Lemma joinGame_phases (name : string) (gameCode : Z) (key : string) (s : Store) :
  joinGame name gameCode key s
  = match joinGame_reads name gameCode s with
    | Return size =>
        (Return (joinGame_insert name gameCode key size s).1,
         (joinGame_insert name gameCode key size s).2)
    | Throw e => (Throw e, s)
    end.
Proof.
  unfold joinGame, joinGame_reads, joinGame_insert.
  destruct (gamesFindOne _ _); simpl; [|done].
  destruct (head _) as [st|]; [|done].
  destruct (negb _); [done|].
  case_bool_decide; [done|]. by case_bool_decide.
Qed.

(** C5, as stated, fails when two joins overlap: on a game of nine
    players both joins read nine player documents and pass the checks
    before either inserts; both inserts then go through, the roster holds
    eleven player documents, and the two new ones both have order 10. *)
Lemma overlapping_joins_leave_eleven :
  length (players (db ninePlayers 5)) = 9%nat
  ∧ joinGame_reads "P10" 5 ninePlayers = Return 9%nat
  ∧ joinGame_reads "P11" 5 ninePlayers = Return 9%nat
  ∧ length (players (db (joinGame_insert "P11" 5 keyBob 9
                           (joinGame_insert "P10" 5 keyAlice 9 ninePlayers).2).2 5))
    = 11%nat
  ∧ drop 9 (map (fun d => (d !! "name", d !! "order"))
                (players (db (joinGame_insert "P11" 5 keyBob 9
                                (joinGame_insert "P10" 5 keyAlice 9 ninePlayers).2).2 5)))
    = [(Some (VStr "P10"), Some (VNum 10)); (Some (VStr "P11"), Some (VNum 10))].
Proof. repeat split; vm_compute; reflexivity. Qed.
